(** * glue-jupyter: state <-> dict conversion helpers

    A shallow embedding of [glue_jupyter/state_traitlets_helpers.py]:
    the serializer [state_to_dict], the patcher [update_state_from_dict],
    the encoder hook [GlueStateJSONEncoder.default] and the [GlueState]
    trait ([validate], [set], [convert_state_to_json],
    [update_state_from_json]).

    Modelling choices.
    - Python values are a tagged union [value]; a glue [State] object is
      its attribute table, one row per name of [dir(state)].
    - The object graph is a tree (no object is held by two properties), so
      the in-place mutations of the patcher are modelled by state passing
      over that tree, together with a log of the mutating calls in the
      order in which they are made.
    - Assignment stores: the validators and callbacks that an application
      may attach to a property are not part of the model.
    - An exception ends the run and keeps the mutations made so far.
    - [State.update_from_dict], the method that the patcher calls on a
      state held in a [CallbackList], belongs to glue and is a parameter
      ([StateHost]).
    - [json.dumps] and [json.loads] belong to Python; what their
      composition does to the values of the model (which has no float and
      no object that the encoder refuses) is [json_loads_dumps]. *)

From stdpp Require Import base list strings sorting pretty.
From Stdlib Require Import ZArith.

Open Scope string_scope.
Open Scope list_scope.
Open Scope Z_scope.

(** * Part I: the program *)

(** ** Python values *)

(** Keys of a Python dict: integers (positions) or strings (names). *)
Inductive key :=
| KInt (i : Z)
| KStr (s : string).

(** One row of the attribute table of an object: a name listed by
    [dir(state)], what [state.is_callback_property(name)] and
    [state._update_priority(name)] answer for it, and
    [getattr(state, name)]. *)
Record attr (V : Type) := Attr {
  a_name : string;
  a_callback : bool;
  a_priority : Z;
  a_value : V
}.
Arguments Attr {V} _ _ _ _.
Arguments a_name {V} _.
Arguments a_callback {V} _.
Arguments a_priority {V} _.
Arguments a_value {V} _.

#[warnings="-register-all"]
Inductive value :=
| VNone
| VBool (b : bool)
| VInt (n : Z)
| VStr (s : string)
| VRef (id : nat)                      (* Data, Subset or ComponentID *)
| VColormap (name : string)            (* matplotlib Colormap *)
| VList (l : list value)               (* plain list *)
| VDict (d : list (key * value))       (* dict, in insertion order *)
| VCallbackList (items : list value)   (* echo CallbackList *)
| VState (s : list (attr value)).      (* glue State *)

Abbreviation State := (list (attr value)).

(** A dict whose keys are property names: the result of [state_to_dict]
    and the [changes] argument of [update_state_from_dict]. *)
Abbreviation record := (list (string * value)).

Definition dict_of_record (r : record) : list (key * value) :=
  map (λ kv, (KStr kv.1, kv.2)) r.

Definition MAGIC_IGNORE : string := "611cfa3b-ebb5-42d2-b5c7-ba9bce8b51a4".

Definition key_eqb (k1 k2 : key) : bool :=
  match k1, k2 with
  | KInt i, KInt j => Z.eqb i j
  | KStr s, KStr t => String.eqb s t
  | _, _ => false
  end.

(** [name.startswith('_')] *)
Definition startswith_underscore (name : string) : bool :=
  String.prefix "_" name.

(** [isinstance(v, State)] and [isinstance(v, CallbackList)] *)
Definition is_State (v : value) : bool :=
  match v with VState _ => true | _ => false end.

Definition is_CallbackList (v : value) : bool :=
  match v with VCallbackList _ => true | _ => false end.

(** ** Attributes and dict entries *)

Fixpoint lookup_attr (name : string) (state : State) : option (attr value) :=
  match state with
  | [] => None
  | a :: rest =>
      if String.eqb (a_name a) name then Some a else lookup_attr name rest
  end.

(** [dir(state)] *)
Definition dir (state : State) : list string := map a_name state.

(** [getattr(state, name)]; [None] stands for AttributeError. *)
Definition getattr (state : State) (name : string) : option value :=
  a_value <$> lookup_attr name state.

(** [state.is_callback_property(name)] *)
Definition is_callback_property (state : State) (name : string) : bool :=
  match lookup_attr name state with
  | Some a => a_callback a
  | None => false
  end.

(** [state._update_priority(name)] (0 is the priority glue gives by
    default) *)
Definition _update_priority (state : State) (name : string) : Z :=
  match lookup_attr name state with
  | Some a => a_priority a
  | None => 0
  end.

(** The attribute table after [setattr(state, name, v)]; a name that is not
    there yet becomes a plain instance attribute. *)
Fixpoint store_attr (name : string) (v : value) (state : State) : State :=
  match state with
  | [] => [Attr name false 0 v]
  | a :: rest =>
      if String.eqb (a_name a) name
      then Attr (a_name a) (a_callback a) (a_priority a) v :: rest
      else a :: store_attr name v rest
  end.

(** [changes[name]] for a record; [None] stands for KeyError. *)
Fixpoint record_get (r : record) (name : string) : option value :=
  match r with
  | [] => None
  | (k, v) :: r' => if String.eqb k name then Some v else record_get r' name
  end.

(** [d[k]] for a dict; [None] stands for KeyError. *)
Fixpoint dict_get (d : list (key * value)) (k : key) : option value :=
  match d with
  | [] => None
  | (k', v) :: d' => if key_eqb k' k then Some v else dict_get d' k
  end.

(** ** Serializer *)

(** [enumerate(l)] *)
Fixpoint enumerate_from {A} (start : nat) (l : list A) : list (nat * A) :=
  match l with
  | [] => []
  | x :: l' => (start, x) :: enumerate_from (S start) l'
  end.

Definition enumerate {A} (l : list A) : list (nat * A) := enumerate_from 0 l.

(** [{index: value for index, value in enumerate(l)}] *)
Definition dict_of_enumerate (l : list value) : list (key * value) :=
  map (λ iv, (KInt (Z.of_nat iv.1), iv.2)) (enumerate l).

(** The body of [state_to_dict], with the call made on the states found in
    a [CallbackList] taken as [recurse]: the loop runs over the rows of
    [dir(state)]; a [CallbackList] becomes a dict keyed by position. *)
Section serializer.
Variable recurse : value → value.

Definition serialize_property (item : value) : value :=
  match item with
  | VCallbackList items => VDict (dict_of_enumerate (map recurse items))
  | _ => item
  end.

Fixpoint state_to_dict_loop (state : State) : record :=
  match state with
  | [] => []
  | Attr name callback _ item :: rest =>
      if negb (startswith_underscore name) && callback
      then (name, serialize_property item) :: state_to_dict_loop rest
      else state_to_dict_loop rest
  end.
End serializer.

(** [state_to_dict(value) if isinstance(value, State) else value] *)
Fixpoint serialize_item (v : value) : value :=
  match v with
  | VState s => VDict (dict_of_record (state_to_dict_loop serialize_item s))
  | _ => v
  end.

(** [state_to_dict(state)] *)
Definition state_to_dict (state : State) : record :=
  state_to_dict_loop serialize_item state.

(** ** Exceptions, the log of mutating calls, the monad of the patcher *)

Inductive exn :=
| TypeError
| KeyError
| IndexError
| AttributeError
| TraitError (msg : string)
| HostError (code : nat).       (* raised inside the glue library *)

Inductive outcome (A : Type) :=
| Ret (a : A)
| Raise (e : exn).
Arguments Ret {A} _.
Arguments Raise {A} _.

(** The mutating calls that the patcher makes on the live state. *)
Inductive event :=
| ESetattr (name : string) (v : value)            (* setattr(state, name, v) *)
| ESetitem (name : string) (i : nat) (v : value)  (* callback_list[i] = v *)
| EUpdate (name : string) (i : nat) (properties : value).
                              (* callback_list[i].update_from_dict(properties) *)

(** The property on which a call is made. *)
Definition ev_name (e : event) : string :=
  match e with
  | ESetattr name _ | ESetitem name _ _ | EUpdate name _ _ => name
  end.

Record world := World {
  live : State;          (* the state object being patched *)
  log : list event       (* the mutating calls made so far, oldest first *)
}.

Definition M (A : Type) : Type := world → outcome A * world.

#[export] Instance M_ret : MRet M := λ A a w, (Ret a, w).

#[export] Instance M_bind : MBind M := λ A B f m w,
  match m w with
  | (Ret a, w') => f a w'
  | (Raise e, w') => (Raise e, w')
  end.

Definition raise {A} (e : exn) : M A := λ w, (Raise e, w).

Definition lift {A} (o : outcome A) : M A := λ w, (o, w).

Definition from_option {A} (e : exn) (o : option A) : M A :=
  match o with
  | Some a => mret a
  | None => raise e
  end.

(** [for x in l: body(x)] *)
Fixpoint for_ {A} (l : list A) (body : A → M unit) : M unit :=
  match l with
  | [] => mret tt
  | x :: l' => body x ;; for_ l' body
  end.

(** ** Python operators used by the patcher *)

(** [i == v] for an int [i]: ints compare by value, [True] is 1 and
    [False] is 0, any other [value] is different from an int. *)
Definition py_eq_int (i : Z) (v : value) : bool :=
  match v with
  | VInt j => Z.eqb i j
  | VBool b => Z.eqb i (if b then 1 else 0)
  | _ => false
  end.

(** [i in c] for an int [i]: key membership for a dict, element membership
    for a list, TypeError for what is not a container of ints. *)
Definition py_contains (i : Z) (c : value) : outcome bool :=
  match c with
  | VDict d => Ret (bool_decide (is_Some (dict_get d (KInt i))))
  | VList l | VCallbackList l => Ret (existsb (py_eq_int i) l)
  | _ => Raise TypeError
  end.

(** [c[i]] for an int [i] *)
Definition py_getitem (c : value) (i : Z) : outcome value :=
  match c with
  | VDict d =>
      match dict_get d (KInt i) with
      | Some v => Ret v
      | None => Raise KeyError
      end
  | VList l | VCallbackList l =>
      let j := if Z.ltb i 0 then Z.of_nat (length l) + i else i in
      if Z.ltb j 0 then Raise IndexError else
      match l !! Z.to_nat j with
      | Some v => Ret v
      | None => Raise IndexError
      end
  | VStr s =>
      let j := if Z.ltb i 0 then Z.of_nat (String.length s) + i else i in
      if Z.ltb j 0 then Raise IndexError else
      match String.get (Z.to_nat j) s with
      | Some c => Ret (VStr (String c EmptyString))
      | None => Raise IndexError
      end
  | _ => Raise TypeError
  end.

(** [v != s] for a string [s]: only a string can be equal to it. *)
Definition py_ne_str (v : value) (s : string) : bool :=
  match v with
  | VStr t => negb (String.eqb t s)
  | _ => true
  end.

(** ** Reads and writes of the live state *)

Definition get_state : M State := λ w, (Ret (live w), w).

(** [getattr(state, name)] *)
Definition py_getattr (name : string) : M value :=
  λ w, from_option AttributeError (getattr (live w) name) w.

(** [setattr(state, name, v)] *)
Definition py_setattr (name : string) (v : value) : M unit :=
  λ w, (Ret tt, World (store_attr name v (live w)) (log w ++ [ESetattr name v])).

(** [callback_list[i]], where [callback_list] is the list held by [name] *)
Definition list_getitem (name : string) (i : nat) : M value :=
  cur ← py_getattr name;
  match cur with
  | VCallbackList items => from_option IndexError (items !! i)
  | _ => raise TypeError
  end.

(** [callback_list[i] = v] *)
Definition list_setitem (name : string) (i : nat) (v : value) : M unit :=
  λ w,
    match getattr (live w) name with
    | Some (VCallbackList items) =>
        if decide (i < length items)%nat
        then (Ret tt,
              World (store_attr name (VCallbackList (<[i:=v]> items)) (live w))
                    (log w ++ [ESetitem name i v]))
        else (Raise IndexError, w)
    | _ => (Raise TypeError, w)
    end.

(** ** Patcher *)

(** The method of glue's [State] that the patcher calls on a state held in a
    [CallbackList]: the state it leaves behind, and the exception if any. *)
Class StateHost := update_from_dict : State → value → option exn * State.

(** [groups[priority].append(name)] on a [defaultdict(list)] *)
Fixpoint groups_append (groups : list (Z * list string))
    (priority : Z) (name : string) : list (Z * list string) :=
  match groups with
  | [] => [(priority, [name])]
  | (p, names) :: rest =>
      if Z.eqb p priority
      then (p, names ++ [name]) :: rest
      else (p, names) :: groups_append rest priority name
  end.

(** [groups[priority]] *)
Fixpoint groups_get (groups : list (Z * list string))
    (priority : Z) : list string :=
  match groups with
  | [] => []
  | (p, names) :: rest =>
      if Z.eqb p priority then names else groups_get rest priority
  end.

(** [sorted(keys, reverse=True)] *)
Definition sorted_reverse (keys : list Z) : list Z :=
  merge_sort (flip Z.le) keys.

(** The body of the first loop of [update_state_from_dict]. *)
Definition group_step (state : State) (groups : list (Z * list string))
    (name : string) : list (Z * list string) :=
  if is_callback_property state name
  then groups_append groups (_update_priority state name) name
  else groups.

(** The first loop of [update_state_from_dict]. *)
Definition collect_groups (state : State) (changes : record)
    : list (Z * list string) :=
  foldl (group_step state) [] (changes.*1).

(** The names in the order in which the second loop visits them. *)
Definition patch_order (state : State) (changes : record) : list string :=
  let groups := collect_groups state changes in
  mjoin ((groups_get groups) <$> sorted_reverse (groups.*1)).

Section patcher.
Context `{!StateHost}.

(** [callback_list[i].update_from_dict(properties)] *)
Definition item_update_from_dict (name : string) (i : nat)
    (properties : value) : M unit :=
  λ w,
    match getattr (live w) name with
    | Some (VCallbackList items) =>
        match items !! i with
        | Some (VState s) =>
            let r := update_from_dict s properties in
            let w' :=
              World (store_attr name
                       (VCallbackList (<[i:=VState r.2]> items)) (live w))
                    (log w ++ [EUpdate name i properties]) in
            match r.1 with
            | None => (Ret tt, w')
            | Some e => (Raise e, w')
            end
        | _ => (Raise AttributeError, w)
        end
    | _ => (Raise TypeError, w)
    end.

(** The body of [for i in range(len(callback_list))]. *)
Definition patch_item (changes : record) (name : string) (i : nat)
    : M unit :=
  new ← from_option KeyError (record_get changes name);
  present ← lift (py_contains (Z.of_nat i) new);
  if present : bool then
    item ← list_getitem name i;
    if is_State item then
      properties ← lift (py_getitem new (Z.of_nat i));
      item_update_from_dict name i properties
    else
      v ← lift (py_getitem new (Z.of_nat i));
      list_setitem name i v
  else mret tt.

(** The body of [for name in groups[priority]]. *)
Definition patch_property (changes : record) (name : string) : M unit :=
  cur ← py_getattr name;
  match cur with
  | VCallbackList callback_list =>
      for_ (seq 0 (length callback_list)) (patch_item changes name)
  | _ =>
      new ← from_option KeyError (record_get changes name);
      if py_ne_str new MAGIC_IGNORE then py_setattr name new else mret tt
  end.

(** [update_state_from_dict(state, changes)] on the live state. *)
Definition update_state_from_dict (changes : record) : M unit :=
  if (length changes =? 0)%nat then mret tt else
  state ← get_state;
  let groups := collect_groups state changes in
  for_ (sorted_reverse (groups.*1))
       (λ priority, for_ (groups_get groups priority) (patch_property changes)).

(** A call on a state object, with an empty log. *)
Definition run_update (state : State) (changes : record)
    : outcome unit * world :=
  update_state_from_dict changes (World state []).
End patcher.

(** ** The JSON encoder and the [GlueState] trait *)

(** [GlueStateJSONEncoder.default(obj)]; the last case stands for
    [json.JSONEncoder.default], which raises TypeError. *)
Definition encoder_default (obj : value) : outcome value :=
  match obj with
  | VState s => Ret (VDict (dict_of_record (state_to_dict s)))
  | VRef _ => Ret (VStr MAGIC_IGNORE)
  | VColormap name => Ret (VStr name)
  | _ => Raise TypeError
  end.

(** [GlueState.validate(obj, value)] *)
Definition GlueState_validate (v : value) : outcome value :=
  match v with
  | VNone | VState _ => Ret v
  | _ => Raise (TraitError "value should be a glue State instance")
  end.

(** The object that owns the trait: the value stored for the trait, and the
    states on which [on_state_change] has been registered. *)
Record widget := Widget {
  trait_value : value;
  registered : list State
}.

(** [traitlets.TraitType.set(obj, value)]: the value goes through
    [validate] and is stored in the trait values of [obj]. *)
Definition TraitType_set (obj : widget) (v : value) : outcome unit * widget :=
  match GlueState_validate v with
  | Ret new_value => (Ret tt, Widget new_value (registered obj))
  | Raise e => (Raise e, obj)
  end.

(** [state.add_global_callback(...)]: a method of [State]; looking it up on
    any other value raises AttributeError. *)
Definition add_global_callback (obj : widget) (state : value)
    : outcome unit * widget :=
  match state with
  | VState s => (Ret tt, Widget (trait_value obj) (registered obj ++ [s]))
  | _ => (Raise AttributeError, obj)
  end.

(** [GlueState.set(obj, state)] *)
Definition GlueState_set (obj : widget) (state : value)
    : outcome unit * widget :=
  match TraitType_set obj state with
  | (Ret _, obj') => add_global_callback obj' state
  | (Raise e, obj') => (Raise e, obj')
  end.

(** ** Vocabulary of the statements *)

(** The condition of the [if] in [state_to_dict]. *)
Definition serialized (state : State) (name : string) : Prop :=
  startswith_underscore name = false ∧ is_callback_property state name = true.

#[export] Instance serialized_dec state name : Decision (serialized state name).
Proof. unfold serialized. apply _. Defined.

(** The keys of [changes] that the state recognizes. *)
Definition recognized (state : State) (name : string) : Prop :=
  is_callback_property state name = true.

#[export] Instance recognized_dec state name : Decision (recognized state name).
Proof. unfold recognized. apply _. Defined.

(** What the class of a state fixes: names, callback flags, priorities. *)
Definition class_of (state : State) : list (string * bool * Z) :=
  (λ a, (a_name a, a_callback a, a_priority a)) <$> state.

(** [touches names w w']: from [w] to [w'] the class of the live state is
    the same, the attributes outside [names] are the same, and the log grew
    by calls on [names] only. *)
Record touches (names : list string) (w w' : world) : Prop := Touches {
  touches_class : class_of (live w') = class_of (live w);
  touches_frame : ∀ m, m ∉ names →
                       lookup_attr m (live w') = lookup_attr m (live w);
  touches_log : ∃ evs, log w' = log w ++ evs ∧
                       Forall (λ e, ev_name e ∈ names) evs
}.

(** Earlier names have a priority at least as high. *)
Definition higher_first (state : State) (a b : string) : Prop :=
  _update_priority state b ≤ _update_priority state a.

(** Item [i] of a [CallbackList] after the patch with the dict [sub]. *)
Definition patched_item `{!StateHost} (sub : list (key * value)) (i : nat)
    (old : value) : value :=
  match dict_get sub (KInt (Z.of_nat i)) with
  | None => old
  | Some v =>
      match old with
      | VState s => VState (update_from_dict s v).2
      | _ => v
      end
  end.

(** No call of [update_from_dict] made for [sub] on [items] raises. *)
Definition host_accepts `{!StateHost} (sub : list (key * value))
    (items : list value) : Prop :=
  ∀ (i : nat) s v, items !! i = Some (VState s) →
                   dict_get sub (KInt (Z.of_nat i)) = Some v →
                   (update_from_dict s v).1 = None.




(** ** Examples *)

Module Sample.
(** A host for the examples: [update_from_dict] assigns the values of the
    string keys that the state recognizes, and raises on anything that is
    not a dict. *)
Definition update (s : State) (properties : value) : option exn * State :=
  match properties with
  | VDict d =>
      (None,
       foldl (λ s kv,
                match kv.1 with
                | KStr name =>
                    if is_callback_property s name
                    then store_attr name kv.2 s else s
                | KInt _ => s
                end) s d)
  | _ => (Some TypeError, s)
  end.

Definition host : StateHost := update.

Definition layer (color : string) : value :=
  VState [Attr "color" true 0 (VStr color)].

Definition layers : list value := [layer "red"; layer "green"; layer "blue"].

Definition viewer : State :=
  [Attr "_hidden" true 0 (VInt 0);
   Attr "layers" true 0 (VCallbackList layers);
   Attr "title" true 0 (VStr "plot");
   Attr "x_att" true 10 (VRef 1);
   Attr "x_min" true 1 (VInt 0);
   Attr "zoom" false 0 (VInt 2)].

(** A patch for item 1 and for a position that the list does not have. *)
Definition layers_patch : list (key * value) :=
  [(KInt 1, VDict [(KStr "color", VStr "black")]);
   (KInt 5, VDict [(KStr "color", VStr "white")])].

(** Two keys, the one of lower priority first. *)
Definition limits_patch : record :=
  [("x_min", VInt 5); ("x_att", VRef 2)].







(** A list that holds a reference, and the patch that comes back for it
    once the encoder has replaced the reference by the marker. *)
Definition subsets : State :=
  [Attr "subsets" true 0 (VCallbackList [VRef 7; VInt 3])].

Definition subsets_patch : record :=
  [("subsets", VDict [(KInt 0, VStr MAGIC_IGNORE)])].
End Sample.

(** ** Vocabulary of the further statements *)

(** The JSON values that are neither an object nor an array. *)
Definition json_scalar (v : value) : bool :=
  match v with
  | VNone | VBool _ | VInt _ | VStr _ => true
  | _ => false
  end.

(** A dict all of whose keys are strings, as JSON has them. *)
Definition string_keyed (d : list (key * value)) : bool :=
  forallb (λ kv, match kv.1 with KStr _ => true | KInt _ => false end) d.

(** The call that the [else] branch of the patcher makes for [name]. *)
Definition scalar_event (changes : record) (name : string) : option event :=
  match record_get changes name with
  | Some v => if py_ne_str v MAGIC_IGNORE then Some (ESetattr name v) else None
  | None => None
  end.

(** The attribute table after the [else] branch for [name]. *)
Definition scalar_store (changes : record) (state : State) (name : string)
    : State :=
  match record_get changes name with
  | Some v => if py_ne_str v MAGIC_IGNORE then store_attr name v state else state
  | None => state
  end.

(** No recognized key of [changes] is for a property that holds a
    [CallbackList]. *)
Definition scalar_patch (state : State) (changes : record) : Prop :=
  ∀ name, name ∈ changes.*1 → is_callback_property state name = true →
          ∃ cur, getattr state name = Some cur ∧ is_CallbackList cur = false.

(** From [w] to [w'] every property that holds a [CallbackList] still holds
    one, of the same length. *)
Definition keeps_collections (w w' : world) : Prop :=
  ∀ name items, getattr (live w) name = Some (VCallbackList items) →
                ∃ items', getattr (live w') name = Some (VCallbackList items')
                          ∧ length items' = length items.

(** ** The JSON pass and the two hooks of the trait *)

(** [str(k)] for a key of a dict, as [json.dumps] writes the names of the
    members of an object. *)
Definition key_str (k : key) : string :=
  match k with
  | KStr s => s
  | KInt i => pretty i
  end.

(** [d[k] = v] *)
Fixpoint dict_put (d : list (key * value)) (k : key) (v : value)
    : list (key * value) :=
  match d with
  | [] => [(k, v)]
  | (k', v') :: d' =>
      if key_eqb k' k then (k', v) :: d' else (k', v') :: dict_put d' k v
  end.

(** The dict that [json.loads] builds from the members of an object, in the
    order of the text: a name that comes again replaces the value. *)
Definition json_object (members : list (string * value))
    : list (key * value) :=
  foldl (λ d m, dict_put d (KStr m.1) m.2) [] members.

(** Results of the JSON pass: [None] when the fuel is used up. *)
Definition pass_bind {A B} (m : option (outcome A))
    (f : A → option (outcome B)) : option (outcome B) :=
  match m with
  | Some (Ret a) => f a
  | Some (Raise e) => Some (Raise e)
  | None => None
  end.

Fixpoint pass_all {A B} (f : A → option (outcome B)) (l : list A)
    : option (outcome (list B)) :=
  match l with
  | [] => Some (Ret [])
  | x :: l' =>
      pass_bind (f x) (λ y,
      pass_bind (pass_all f l') (λ ys, Some (Ret (y :: ys))))
  end.

(** [json.loads(json.dumps(o, cls=GlueStateJSONEncoder))]: None, bools,
    ints and strings are written and read back as they are, a list as a
    list, a dict as an object whose names are the keys as strings, and any
    other object as what [default] returns for it. [fuel] bounds the depth
    of the calls. *)
Fixpoint json_loads_dumps (fuel : nat) (o : value) : option (outcome value) :=
  match fuel with
  | O => None
  | S fuel =>
      match o with
      | VNone | VBool _ | VInt _ | VStr _ => Some (Ret o)
      | VList l | VCallbackList l =>
          pass_bind (pass_all (json_loads_dumps fuel) l)
                    (λ l', Some (Ret (VList l')))
      | VDict d =>
          pass_bind
            (pass_all (λ kv, pass_bind (json_loads_dumps fuel kv.2)
                                       (λ v, Some (Ret (key_str kv.1, v)))) d)
            (λ members, Some (Ret (VDict (json_object members))))
      | VRef _ | VColormap _ | VState _ =>
          match encoder_default o with
          | Ret o' => json_loads_dumps fuel o'
          | Raise e => Some (Raise e)
          end
      end
  end.

(** A bound on the depth of the calls of the JSON pass on [v]. *)
Fixpoint weight (v : value) : nat :=
  match v with
  | VNone | VBool _ | VInt _ | VStr _ => 1%nat
  | VRef _ | VColormap _ => 2%nat
  | VList l | VCallbackList l => S (list_sum (map (λ x, S (weight x)) l))
  | VDict d => S (list_sum (map (λ kv, S (weight kv.2)) d))
  | VState s => S (S (list_sum (map (λ a, S (weight (a_value a))) s)))
  end.

(** [GlueState.convert_state_to_json(state, widget)], for what the trait
    holds: [None] or a state. *)
Definition convert_state_to_json (state : option State)
    : option (outcome value) :=
  match state with
  | None => Some (Ret (VDict []))
  | Some s =>
      let o := VDict (dict_of_record (state_to_dict s)) in
      json_loads_dumps (weight o) o
  end.

(** [GlueState.update_state_from_json(json, widget)], for what the trait
    holds: the value returned, and the object held after the call. On
    [None] a record that is not empty makes [update_state_from_dict] look
    up [is_callback_property], which [None] does not have. *)
Definition update_state_from_json `{!StateHost} (state : option State)
    (json : record) : outcome (option State) * option State :=
  match state with
  | Some s =>
      let r := run_update s json in
      (match r.1 with
       | Ret _ => Ret (Some (live r.2))
       | Raise e => Raise e
       end,
       Some (live r.2))
  | None =>
      if (length json =? 0)%nat then (Ret None, None)
      else (Raise AttributeError, None)
  end.

(** A dict with string keys, read as a record. *)
Fixpoint record_of_dict (d : list (key * value)) : option record :=
  match d with
  | [] => Some []
  | (KStr s, v) :: d' => cons (s, v) <$> record_of_dict d'
  | (KInt _, _) :: _ => None
  end.

(** [json_of o r]: the JSON pass on [o] returns [r]. *)
Definition json_of (o r : value) : Prop :=
  ∃ fuel, json_loads_dumps fuel o = Some (Ret r).

#[export] Instance key_eq_dec : EqDecision key.
Proof. solve_decision. Defined.

(** The values that [json.loads] returns: None, bools, ints, strings, lists
    of such values, and dicts of such values with string keys, each key
    once. *)
Fixpoint json_native (v : value) : bool :=
  match v with
  | VNone | VBool _ | VInt _ | VStr _ => true
  | VList l => forallb json_native l
  | VDict d =>
      forallb (λ kv, match kv.1 with KStr _ => true | KInt _ => false end
                     && json_native kv.2) d
      && bool_decide (NoDup d.*1)
  | _ => false
  end.

(** A dict as [json.loads] builds it. *)
Definition dict_wf (d : list (key * value)) : Prop :=
  Forall (λ kv, (∃ s, kv.1 = KStr s) ∧ json_native kv.2 = true) d ∧
  NoDup d.*1.

(** The value of a property that holds [val] after [rv], the JSON form of
    what [state_to_dict] gives for [val], has been patched back over it:
    a [CallbackList] and a property whose JSON form is the marker are left
    alone, any other property is assigned its JSON form. *)
Definition echo_value (val rv : value) : value :=
  if is_CallbackList val then val
  else if py_ne_str rv MAGIC_IGNORE then rv else val.

(** The values that come back as they are: what JSON holds natively,
    references, and [CallbackList]s. *)
Definition echo_safe (state : State) : Prop :=
  ∀ name val, serialized state name → getattr state name = Some val →
              json_native val = true ∨ (∃ id, val = VRef id) ∨
              is_CallbackList val = true.

(** ** More examples *)

Module Wire.
(** A state that holds a colormap and a state. *)
Definition styled : State :=
  [Attr "cmap" true 0 (VColormap "viridis");
   Attr "style" true 0 (VState [Attr "width" true 0 (VInt 2)])].

(** Callback properties whose names start with an underscore and that hold
    [CallbackList]s, one of them empty. *)
Definition private_lists : State :=
  [Attr "_layers" true 0 (VCallbackList []);
   Attr "_marks" true 0 (VCallbackList [VInt 1; VInt 2])].

(** A list of two items, and a state of its class whose list is empty. *)
Definition levels : State :=
  [Attr "levels" true 0 (VCallbackList [VInt 10; VInt 20])].

Definition levels_fresh : State :=
  [Attr "levels" true 0 (VCallbackList [])].

(** A record with one key for a list and keys of higher and of lower
    priority for other properties. *)
Definition mixed_patch : record :=
  [("title", VStr "new"); ("layers", VStr MAGIC_IGNORE); ("x_att", VRef 2)].
End Wire.

(** * Part II: properties *)

(** ** Serializer, step by step *)

Lemma state_to_dict_cons a rest :
  state_to_dict (a :: rest) =
  if negb (startswith_underscore (a_name a)) && a_callback a
  then (a_name a, serialize_property serialize_item (a_value a))
         :: state_to_dict rest
  else state_to_dict rest.
Proof. by destruct a. Qed.

Lemma serialize_item_State s :
  serialize_item (VState s) = VDict (dict_of_record (state_to_dict s)).
Proof. done. Qed.

(** ** Attribute tables *)

Lemma lookup_attr_name name state a :
  lookup_attr name state = Some a → a_name a = name.
Proof.
  induction state as [|b rest IH]; simpl; [done|].
  destruct (String.eqb_spec (a_name b) name); [congruence|done].
Qed.

Lemma lookup_attr_elem_of name state a :
  lookup_attr name state = Some a → a ∈ state.
Proof.
  induction state as [|b rest IH]; simpl; [done|].
  destruct (String.eqb_spec (a_name b) name); intros.
  - simplify_eq. left.
  - right. auto.
Qed.

Lemma lookup_attr_None name state :
  lookup_attr name state = None ↔ name ∉ dir state.
Proof.
  induction state as [|b rest IH]; simpl.
  - split; [intros _; apply not_elem_of_nil|done].
  - rewrite not_elem_of_cons.
    destruct (String.eqb_spec (a_name b) name) as [Heq|Hne].
    + split; [done|]. intros [Hne _]. by destruct Hne.
    + rewrite IH. split; [by intros ?; split; [congruence|]|by intros [_ ?]].
Qed.

Lemma lookup_attr_NoDup state a :
  NoDup (dir state) → a ∈ state → lookup_attr (a_name a) state = Some a.
Proof.
  induction state as [|b rest IH]; simpl; [by intros _ ?%elem_of_nil|].
  rewrite NoDup_cons. intros [Hb Hrest] [->|Ha]%elem_of_cons.
  - by rewrite String.eqb_refl.
  - destruct (String.eqb_spec (a_name b) (a_name a)) as [Heq|]; [|by auto].
    destruct Hb. rewrite Heq. by apply list_elem_of_fmap_2.
Qed.

Lemma is_callback_property_dir state name :
  is_callback_property state name = true → name ∈ dir state.
Proof.
  unfold is_callback_property.
  destruct (lookup_attr name state) as [a|] eqn:Ha; [|done].
  intros _. rewrite <-(lookup_attr_name _ _ _ Ha).
  apply list_elem_of_fmap_2. by eapply lookup_attr_elem_of.
Qed.

(** ** Serializer *)

Lemma state_to_dict_keys_elem_of state name :
  name ∈ (state_to_dict state).*1 ↔
  ∃ a, a ∈ state ∧ a_name a = name ∧
       startswith_underscore name = false ∧ a_callback a = true.
Proof.
  induction state as [|b rest IH].
  - split; [by intros ?%elem_of_nil|by intros (?&?%elem_of_nil&_)].
  - rewrite state_to_dict_cons.
    destruct (startswith_underscore (a_name b)) eqn:Hu,
             (a_callback b) eqn:Hc; simpl;
      rewrite ?elem_of_cons, IH; split.
    all: try (intros (a & [->|Ha]%elem_of_cons & Hn & Hs & Hcb);
              [congruence|by eauto 6]).
    all: try (intros (a & Ha & ?); exists a; split; [by right|done]).
    + intros [->|(a & Ha & ?)]; [exists b; split; [left|done]|].
      exists a; split; [by right|done].
    + intros (a & [->|Ha]%elem_of_cons & Hn & Hs & Hcb); [by left|].
      right. by eauto 6.
Qed.

Lemma dict_of_enumerate_from_lookup (l : list value) (start i : nat) :
  dict_get (map (λ iv : nat * value, (KInt (Z.of_nat iv.1), iv.2))
                (enumerate_from start l))
           (KInt (Z.of_nat (start + i))) = l !! i.
Proof.
  revert start i. induction l as [|x l IH]; intros start i; simpl; [done|].
  destruct i as [|i]; simpl.
  - rewrite Nat.add_0_r, Z.eqb_refl. done.
  - destruct (Z.eqb_spec (Z.of_nat start) (Z.of_nat (start + S i))); [lia|].
    replace (start + S i)%nat with (S start + i)%nat by lia. apply IH.
Qed.

Lemma dict_of_enumerate_lookup (l : list value) (i : nat) :
  dict_get (dict_of_enumerate l) (KInt (Z.of_nat i)) = l !! i.
Proof. apply (dict_of_enumerate_from_lookup l 0 i). Qed.

Lemma dict_of_enumerate_from_keys (l : list value) (start : nat) :
  (map (λ iv : nat * value, (KInt (Z.of_nat iv.1), iv.2))
       (enumerate_from start l)).*1
  = (λ i, KInt (Z.of_nat i)) <$> seq start (length l).
Proof.
  revert start. induction l as [|x l IH]; intros start; simpl; [done|].
  f_equal. apply IH.
Qed.

Lemma dict_of_enumerate_keys (l : list value) :
  (dict_of_enumerate l).*1 = (λ i, KInt (Z.of_nat i)) <$> seq 0 (length l).
Proof. apply dict_of_enumerate_from_keys. Qed.

Lemma state_to_dict_get state name a :
  lookup_attr name state = Some a →
  startswith_underscore name = false → a_callback a = true →
  record_get (state_to_dict state) name
  = Some (serialize_property serialize_item (a_value a)).
Proof.
  intros Ha Hu Hc. induction state as [|b rest IH]; [done|].
  rewrite state_to_dict_cons. simpl in Ha.
  destruct (String.eqb_spec (a_name b) name) as [Hb|Hb].
  - simplify_eq. rewrite Hu, Hc. simpl. by rewrite String.eqb_refl.
  - destruct (negb _ && _); simpl; [|by auto].
    destruct (String.eqb_spec (a_name b) name); [done|by auto].
Qed.

Lemma state_to_dict_keys_filter (self state : State) :
  (∀ a, a ∈ state → is_callback_property self (a_name a) = a_callback a) →
  (state_to_dict state).*1 = filter (serialized self) (dir state).
Proof.
  induction state as [|b rest IH]; intros Hflag; [done|].
  rewrite state_to_dict_cons. simpl. rewrite filter_cons.
  assert (Hb := Hflag b (list_elem_of_here _ _)).
  assert (Hrest : ∀ a, a ∈ rest →
            is_callback_property self (a_name a) = a_callback a).
  { intros a Ha. apply Hflag. by right. }
  destruct (decide (serialized self (a_name b))) as [[Hu Hc]|Hn].
  - rewrite Hu, <-Hb, Hc. simpl. f_equal. by apply IH.
  - destruct (startswith_underscore (a_name b)) eqn:Hu; simpl;
      [by apply IH|].
    destruct (a_callback b) eqn:Hc; [|by apply IH].
    destruct Hn. split; [done|congruence].
Qed.

Lemma state_to_dict_keys_NoDup (state : State) :
  NoDup (dir state) →
  (state_to_dict state).*1 = filter (serialized state) (dir state).
Proof.
  intros Hnd. apply state_to_dict_keys_filter.
  intros a Ha. unfold is_callback_property.
  by rewrite (lookup_attr_NoDup _ _ Hnd Ha).
Qed.

(** C7. For a state whose [dir] lists each name once, the keys of
    [state_to_dict(state)] are exactly the names of [dir(state)] that do not
    start with an underscore and that the state recognizes as callback
    properties: the key list is [dir(state)] filtered by that test, so no
    such name is left out and no other key appears. *)
Theorem state_to_dict_keys (state : State) :
  NoDup (dir state) →
  (state_to_dict state).*1 = filter (serialized state) (dir state) ∧
  ∀ name, name ∈ (state_to_dict state).*1 ↔
          name ∈ dir state ∧ startswith_underscore name = false
          ∧ is_callback_property state name = true.
Proof.
  intros Hnd. split; [by apply state_to_dict_keys_NoDup|].
  intros name. rewrite state_to_dict_keys_NoDup, list_elem_of_filter by done.
  unfold serialized. tauto.
Qed.

(** C8, amended. A callback property whose name does not start with an
    underscore and that holds a [CallbackList] is stored in the result of
    [state_to_dict] as a dict (not a list) whose keys are the positions
    0, 1, ..., len-1 and whose value at position [i] is item [i], itself
    serialized with [state_to_dict] when it is a state and taken as it is
    otherwise; an empty list gives the empty dict under its key. *)
Theorem state_to_dict_collection (state : State) (name : string)
    (items : list value) :
  getattr state name = Some (VCallbackList items) →
  startswith_underscore name = false →
  is_callback_property state name = true →
  ∃ d, record_get (state_to_dict state) name = Some (VDict d) ∧
       d.*1 = (λ i, KInt (Z.of_nat i)) <$> seq 0 (length items) ∧
       (∀ i : nat, dict_get d (KInt (Z.of_nat i))
                   = serialize_item <$> items !! i) ∧
       (∀ s, serialize_item (VState s)
             = VDict (dict_of_record (state_to_dict s))) ∧
       (∀ v, is_State v = false → serialize_item v = v) ∧
       (items = [] → d = []).
Proof.
  unfold getattr, is_callback_property. intros Hget Hu Hc.
  destruct (lookup_attr name state) as [a|] eqn:Ha; [|done].
  simpl in Hget. injection Hget as Hv.
  exists (dict_of_enumerate (map serialize_item items)).
  rewrite (state_to_dict_get _ _ _ Ha Hu Hc), Hv. simpl. split_and!.
  - done.
  - by rewrite dict_of_enumerate_keys, length_map.
  - intros i. by rewrite dict_of_enumerate_lookup, list_lookup_fmap.
  - done.
  - by intros [].
  - by intros ->.
Qed.

(** ** The live state under [setattr] *)

Lemma class_of_dir s s' : class_of s = class_of s' → dir s = dir s'.
Proof.
  unfold class_of, dir. intros Hc.
  apply (f_equal (fmap (λ x : string * bool * Z, x.1.1))) in Hc.
  rewrite <-!list_fmap_compose in Hc. exact Hc.
Qed.

Lemma class_of_lookup s s' name :
  class_of s = class_of s' →
  (λ a, (a_callback a, a_priority a)) <$> lookup_attr name s
  = (λ a, (a_callback a, a_priority a)) <$> lookup_attr name s'.
Proof.
  revert s'. induction s as [|a s IH]; intros [|a' s'] Hc; try done.
  simpl in Hc. injection Hc as Hn Hcb Hp Hrest. simpl. rewrite <-Hn.
  destruct (String.eqb (a_name a) name); simpl; [congruence|by apply IH].
Qed.

Lemma class_of_is_callback_property s s' name :
  class_of s = class_of s' →
  is_callback_property s name = is_callback_property s' name.
Proof.
  intros Hc. apply (class_of_lookup _ _ name) in Hc.
  unfold is_callback_property.
  destruct (lookup_attr name s), (lookup_attr name s'); naive_solver.
Qed.

Lemma class_of_update_priority s s' name :
  class_of s = class_of s' →
  _update_priority s name = _update_priority s' name.
Proof.
  intros Hc. apply (class_of_lookup _ _ name) in Hc.
  unfold _update_priority.
  destruct (lookup_attr name s), (lookup_attr name s'); naive_solver.
Qed.

Lemma lookup_attr_store_ne name m v state :
  m ≠ name → lookup_attr m (store_attr name v state) = lookup_attr m state.
Proof.
  intros Hne. induction state as [|a rest IH]; simpl.
  - by destruct (String.eqb_spec name m).
  - destruct (String.eqb_spec (a_name a) name) as [Heq|]; simpl.
    + destruct (String.eqb_spec (a_name a) m); [congruence|done].
    + by rewrite IH.
Qed.

Lemma getattr_store_ne name m v state :
  m ≠ name → getattr (store_attr name v state) m = getattr state m.
Proof. intros. unfold getattr. by rewrite lookup_attr_store_ne. Qed.

Lemma getattr_store_eq name v state :
  getattr (store_attr name v state) name = Some v.
Proof.
  unfold getattr. induction state as [|a rest IH]; simpl.
  - by rewrite String.eqb_refl.
  - destruct (String.eqb_spec (a_name a) name) as [Heq|Hne]; simpl.
    + by rewrite (proj2 (String.eqb_eq _ _) Heq).
    + by rewrite (proj2 (String.eqb_neq _ _) Hne).
Qed.

Lemma class_of_store name v state :
  name ∈ dir state → class_of (store_attr name v state) = class_of state.
Proof.
  induction state as [|a rest IH]; simpl; [by intros ?%elem_of_nil|].
  intros Hin. destruct (String.eqb_spec (a_name a) name) as [Heq|Hne]; [done|].
  simpl. f_equal. apply IH. apply elem_of_cons in Hin as [?|?]; congruence.
Qed.

Lemma getattr_dir state name v : getattr state name = Some v → name ∈ dir state.
Proof.
  unfold getattr. destruct (lookup_attr name state) eqn:Ha; [|done].
  intros _. apply dec_stable. intros Hn. apply lookup_attr_None in Hn.
  congruence.
Qed.

(** ** Runs of the monad *)

Lemma bind_run {A B} (m : M A) (f : A → M B) w :
  (m ≫= f) w = match m w with
               | (Ret a, w') => f a w'
               | (Raise e, w') => (Raise e, w')
               end.
Proof. done. Qed.

Lemma for_cons {A} (x : A) l (body : A → M unit) w :
  for_ (x :: l) body w = match body x w with
                         | (Ret _, w') => for_ l body w'
                         | (Raise e, w') => (Raise e, w')
                         end.
Proof. done. Qed.

Lemma for_app {A} (l1 l2 : list A) (body : A → M unit) w :
  for_ (l1 ++ l2) body w = match for_ l1 body w with
                           | (Ret _, w') => for_ l2 body w'
                           | (Raise e, w') => (Raise e, w')
                           end.
Proof.
  revert w. induction l1 as [|x l1 IH]; intros w; [done|].
  simpl app. rewrite !for_cons.
  destruct (body x w) as [[[]|e] w']; [apply IH|done].
Qed.

Lemma for_join {A B} (l : list A) (f : A → list B) (body : B → M unit) w :
  for_ l (λ x, for_ (f x) body) w = for_ (mjoin (f <$> l)) body w.
Proof.
  revert w. induction l as [|x l IH]; intros w; [done|].
  rewrite for_cons.
  change (mjoin (f <$> x :: l)) with (f x ++ mjoin (f <$> l)).
  rewrite for_app.
  destruct (for_ (f x) body w) as [[[]|e] w']; [apply IH|done].
Qed.

Lemma for_ext {A} (l : list A) (f g : A → M unit) w :
  (∀ x w', x ∈ l → f x w' = g x w') → for_ l f w = for_ l g w.
Proof.
  revert w. induction l as [|x l IH]; intros w Hfg; [done|].
  rewrite !for_cons, Hfg by left.
  destruct (g x w) as [[[]|e] w']; [|done].
  apply IH. intros. apply Hfg. by right.
Qed.

(** A loop keeps what every iteration keeps. *)
Lemma for_preserves {A} (P : world → world → Prop) (l : list A)
    (body : A → M unit) :
  (∀ w, P w w) →
  (∀ w1 w2 w3, P w1 w2 → P w2 w3 → P w1 w3) →
  (∀ x w, x ∈ l → P w (body x w).2) →
  ∀ w, P w (for_ l body w).2.
Proof.
  intros Hrefl Htrans. induction l as [|x l IH]; intros Hbody w; [apply Hrefl|].
  rewrite for_cons. assert (Hx := Hbody x w (list_elem_of_here _ _)).
  destruct (body x w) as [[[]|e] w']; simpl in *; [|done].
  eapply Htrans; [done|]. apply IH. intros. apply Hbody. by right.
Qed.

(** ** What a run touches *)

Lemma touches_refl names w : touches names w w.
Proof.
  split; [done|done|]. exists []. by rewrite app_nil_r.
Qed.

Lemma touches_trans names w1 w2 w3 :
  touches names w1 w2 → touches names w2 w3 → touches names w1 w3.
Proof.
  intros [Hc1 Hf1 (e1 & Hl1 & He1)] [Hc2 Hf2 (e2 & Hl2 & He2)]. split.
  - congruence.
  - intros m Hm. by rewrite Hf2, Hf1.
  - exists (e1 ++ e2). split; [by rewrite Hl2, Hl1, app_assoc|].
    by apply Forall_app.
Qed.

Lemma touches_mono names names' w w' :
  names ⊆ names' → touches names w w' → touches names' w w'.
Proof.
  intros Hsub [Hc Hf (evs & Hl & He)]. split; [done| |].
  - intros m Hm. apply Hf. intros ?. apply Hm. by apply Hsub.
  - exists evs. split; [done|]. eapply Forall_impl; [done|].
    intros e ?. by apply Hsub.
Qed.

Lemma touches_store name v w e :
  name ∈ dir (live w) → ev_name e = name →
  touches [name] w (World (store_attr name v (live w)) (log w ++ [e])).
Proof.
  intros Hin He. split; simpl.
  - by apply class_of_store.
  - intros m Hm. apply lookup_attr_store_ne. intros ->. apply Hm. left.
  - exists [e]. split; [done|]. constructor; [|done]. rewrite He. left.
Qed.

(** ** Grouping by priority *)

#[local] Instance flip_le_transitive : Transitive (flip Z.le).
Proof. intros x y z. unfold flip. lia. Qed.

#[local] Instance flip_le_total : Total (flip Z.le).
Proof. intros x y. unfold flip. lia. Qed.

Lemma groups_get_append groups priority name q :
  groups_get (groups_append groups priority name) q
  = if decide (q = priority)
    then groups_get groups priority ++ [name]
    else groups_get groups q.
Proof.
  induction groups as [|[p names] rest IH]; simpl.
  - destruct (Z.eqb_spec priority q), (decide (q = priority)); congruence.
  - destruct (Z.eqb_spec p priority) as [->|Hp]; simpl.
    + destruct (Z.eqb_spec priority q), (decide (q = priority)); congruence.
    + rewrite IH. destruct (Z.eqb_spec p q), (decide (q = priority));
        congruence.
Qed.

Lemma groups_append_keys groups priority name :
  (groups_append groups priority name).*1
  = if decide (priority ∈ groups.*1) then groups.*1
    else groups.*1 ++ [priority].
Proof.
  induction groups as [|[p names] rest IH].
  - case_decide as Hin; [by apply elem_of_nil in Hin|done].
  - rewrite fmap_cons. cbn [groups_append fst].
    destruct (Z.eqb_spec p priority) as [->|Hp].
    + by rewrite decide_True by left.
    + rewrite fmap_cons, IH. cbn [fst].
      destruct (decide (priority ∈ rest.*1)) as [Hin|Hin].
      * by rewrite decide_True by by right.
      * rewrite decide_False; [done|].
        intros [?|?]%elem_of_cons; congruence.
Qed.

Lemma groups_append_NoDup groups priority name :
  NoDup groups.*1 → NoDup (groups_append groups priority name).*1.
Proof.
  intros Hnd. rewrite groups_append_keys. case_decide; [done|].
  apply NoDup_app. split_and!; [done| |apply NoDup_singleton].
  intros x Hx ->%list_elem_of_singleton. done.
Qed.

Lemma groups_append_names groups priority name :
  mjoin (groups_append groups priority name).*2 ≡ₚ mjoin groups.*2 ++ [name].
Proof.
  induction groups as [|[p names] rest IH]; simpl; [done|].
  destruct (Z.eqb p priority); simpl.
  - rewrite <-!app_assoc. apply Permutation_app_head, Permutation_app_comm.
  - by rewrite IH, app_assoc.
Qed.

Lemma groups_get_keys groups :
  NoDup groups.*1 → groups_get groups <$> groups.*1 = groups.*2.
Proof.
  induction groups as [|[p names] rest IH]; [done|].
  rewrite !fmap_cons, NoDup_cons. simpl. rewrite Z.eqb_refl.
  intros [Hp Hnd]. f_equal. rewrite <-IH by done.
  apply list_fmap_ext. intros i q Hq.
  destruct (Z.eqb_spec p q) as [->|]; [|done].
  destruct Hp. by eapply list_elem_of_lookup_2.
Qed.

Section grouping.
Variable state : State.

Lemma collect_from_NoDup names groups :
  NoDup groups.*1 → NoDup (foldl (group_step state) groups names).*1.
Proof.
  revert groups. induction names as [|n names IH]; intros g Hg; [done|].
  simpl. apply IH. unfold group_step. destruct (is_callback_property state n);
    [by apply groups_append_NoDup|done].
Qed.

Lemma collect_from_names names groups :
  mjoin (foldl (group_step state) groups names).*2
  ≡ₚ mjoin groups.*2 ++ filter (recognized state) names.
Proof.
  revert groups. induction names as [|n names IH]; intros g.
  - by rewrite app_nil_r.
  - simpl. rewrite IH, filter_cons. unfold group_step.
    destruct (decide (recognized state n)) as [Hn|Hn]; unfold recognized in Hn.
    + by rewrite Hn, groups_append_names, <-app_assoc.
    + by apply not_true_is_false in Hn as ->.
Qed.

Lemma collect_from_priority names groups :
  (∀ p n, n ∈ groups_get groups p → _update_priority state n = p) →
  ∀ p n, n ∈ groups_get (foldl (group_step state) groups names) p →
         _update_priority state n = p.
Proof.
  revert groups. induction names as [|m names IH]; intros g Hg; [done|].
  simpl. apply IH. unfold group_step.
  destruct (is_callback_property state m); [|done].
  intros p n. rewrite groups_get_append. case_decide as Hp; [|by auto].
  intros [Hn| ->%list_elem_of_singleton]%elem_of_app; [|done].
  subst p. by apply Hg.
Qed.
End grouping.

Lemma same_priority_sorted state (p : Z) (names : list string) :
  Forall (λ n, _update_priority state n = p) names →
  StronglySorted (higher_first state) names.
Proof.
  induction 1 as [|n names Hn Hall IH]; constructor; [done|].
  eapply Forall_impl; [exact Hall|]. intros m Hm.
  unfold higher_first. simpl in Hm. rewrite Hn, Hm. done.
Qed.

Lemma join_groups_sorted state (f : Z → list string) (priorities : list Z) :
  (∀ p n, n ∈ f p → _update_priority state n = p) →
  StronglySorted (flip Z.le) priorities →
  StronglySorted (higher_first state) (mjoin (f <$> priorities)).
Proof.
  intros Hf. induction 1 as [|p ps Hps IH Hall]; [constructor|].
  change (mjoin (f <$> p :: ps)) with (f p ++ mjoin (f <$> ps)).
  apply StronglySorted_app. split_and!.
  - intros a b Ha [names [Hb Hnames]]%list_elem_of_join.
    apply list_elem_of_fmap in Hnames as (q & -> & Hq).
    rewrite Forall_forall in Hall. specialize (Hall q Hq).
    unfold higher_first, flip in *.
    by rewrite (Hf _ _ Ha), (Hf _ _ Hb).
  - apply (same_priority_sorted _ p), Forall_forall. intros n. apply Hf.
  - done.
Qed.

Section order.
Context `{!StateHost}.
Variable state : State.
Variable changes : record.

(** The names visited are the recognized keys of [changes], each as often
    as it is a key. *)
Lemma patch_order_Permutation :
  patch_order state changes ≡ₚ filter (recognized state) (changes.*1).
Proof.
  unfold patch_order, sorted_reverse.
  rewrite merge_sort_Permutation, groups_get_keys.
  - unfold collect_groups. by rewrite collect_from_names.
  - apply collect_from_NoDup. constructor.
Qed.

Lemma patch_order_elem_of name :
  name ∈ patch_order state changes ↔
  name ∈ changes.*1 ∧ is_callback_property state name = true.
Proof.
  rewrite patch_order_Permutation, list_elem_of_filter.
  unfold recognized. tauto.
Qed.

Lemma patch_order_NoDup :
  NoDup changes.*1 → NoDup (patch_order state changes).
Proof.
  intros Hnd. rewrite patch_order_Permutation. by apply NoDup_filter.
Qed.

(** The names are visited by descending priority. *)
Lemma patch_order_sorted :
  StronglySorted (higher_first state) (patch_order state changes).
Proof.
  unfold patch_order. apply join_groups_sorted.
  - apply collect_from_priority. intros p n ?%elem_of_nil. done.
  - apply StronglySorted_merge_sort; apply _.
Qed.

(** The two nested loops visit [patch_order]. *)
Lemma update_state_from_dict_order w :
  update_state_from_dict changes w =
  if (length changes =? 0)%nat then (Ret tt, w)
  else for_ (patch_order (live w) changes) (patch_property changes) w.
Proof.
  unfold update_state_from_dict.
  destruct (length changes =? 0)%nat; [done|].
  rewrite bind_run. simpl. apply for_join.
Qed.
End order.

(** ** Effects of the steps of the patcher *)

Section effects.
Context `{!StateHost}.

Lemma list_setitem_touches name i v w :
  touches [name] w (list_setitem name i v w).2.
Proof.
  unfold list_setitem.
  destruct (getattr (live w) name) as [[]|] eqn:Hget;
    try apply touches_refl.
  case_decide; [|apply touches_refl].
  apply touches_store; [by eapply getattr_dir|done].
Qed.

Lemma item_update_touches name i properties w :
  touches [name] w (item_update_from_dict name i properties w).2.
Proof.
  unfold item_update_from_dict.
  destruct (getattr (live w) name) as [[]|] eqn:Hget;
    try apply touches_refl.
  destruct (items !! i) as [[]|]; try apply touches_refl.
  destruct (update_from_dict s properties) as [[e|] s']; simpl;
    (apply touches_store; [by eapply getattr_dir|done]).
Qed.

Lemma list_getitem_world name i w : (list_getitem name i w).2 = w.
Proof.
  unfold list_getitem, py_getattr. rewrite bind_run.
  destruct (getattr (live w) name) as [[]|]; try done.
  simpl. by destruct (items !! i).
Qed.

Lemma patch_item_touches changes name i w :
  touches [name] w (patch_item changes name i w).2.
Proof.
  unfold patch_item. rewrite bind_run.
  destruct (record_get changes name) as [new|]; [|apply touches_refl].
  simpl. rewrite bind_run. unfold lift at 1.
  destruct (py_contains (Z.of_nat i) new) as [[]|]; try apply touches_refl.
  rewrite bind_run. pose proof (list_getitem_world name i w) as Hw.
  destruct (list_getitem name i w) as [[item|e] w']; simpl in Hw; subst w';
    [|apply touches_refl].
  destruct (is_State item); rewrite bind_run; unfold lift;
    destruct (py_getitem new (Z.of_nat i)); try apply touches_refl.
  - apply item_update_touches.
  - apply list_setitem_touches.
Qed.

Lemma patch_property_touches changes name w :
  touches [name] w (patch_property changes name w).2.
Proof.
  unfold patch_property, py_getattr. rewrite bind_run.
  destruct (getattr (live w) name) as [cur|] eqn:Hget;
    [|apply touches_refl].
  assert (Hscalar : touches [name] w
            ((new ← from_option KeyError (record_get changes name);
              if py_ne_str new MAGIC_IGNORE
              then py_setattr name new else mret tt) w).2).
  { rewrite bind_run.
    destruct (record_get changes name) as [new|]; [|apply touches_refl].
    simpl. destruct (py_ne_str new MAGIC_IGNORE); [|apply touches_refl].
    apply touches_store; [by eapply getattr_dir|done]. }
  destruct cur; try exact Hscalar. simpl.
  apply for_preserves;
    eauto using touches_refl, touches_trans, patch_item_touches.
Qed.

Lemma for_patch_touches changes names w :
  touches names w (for_ names (patch_property changes) w).2.
Proof.
  apply for_preserves; eauto using touches_refl, touches_trans.
  intros name w' Hin. eapply touches_mono; [|apply patch_property_touches].
  by intros ? ->%list_elem_of_singleton.
Qed.

(** Whatever the outcome, a call of [update_state_from_dict] touches only
    recognized keys of [changes]. *)
Lemma update_state_from_dict_touches changes w :
  touches (patch_order (live w) changes) w
          (update_state_from_dict changes w).2.
Proof.
  rewrite update_state_from_dict_order.
  destruct (length changes =? 0)%nat; [apply touches_refl|].
  apply for_patch_touches.
Qed.

(** The log of a loop over names sorted by priority is sorted by
    priority. *)
Lemma for_patch_sorted state changes names w :
  StronglySorted (higher_first state) names →
  ∃ evs, log (for_ names (patch_property changes) w).2 = log w ++ evs ∧
         Forall (λ e, ev_name e ∈ names) evs ∧
         StronglySorted (λ e1 e2, higher_first state (ev_name e1) (ev_name e2))
                        evs.
Proof.
  intros Hsorted. revert w.
  induction Hsorted as [|n names Hnames IH Hn]; intros w.
  - exists []. rewrite app_nil_r. split_and!; [done|done|constructor].
  - rewrite for_cons.
    destruct (patch_property_touches changes n w) as [_ _ (e1 & Hl1 & He1)].
    assert (Hsame : StronglySorted
              (λ e1 e2, higher_first state (ev_name e1) (ev_name e2)) e1).
    { clear Hl1. induction He1 as [|e es He Hes IHes]; constructor; [done|].
      eapply Forall_impl; [exact Hes|]. simpl.
      intros e' ->%list_elem_of_singleton.
      apply list_elem_of_singleton in He as ->.
      unfold higher_first. lia. }
    destruct (patch_property changes n w) as [[[]|e] w']; simpl in *.
    + destruct (IH w') as (e2 & Hl2 & He2 & Hs2). exists (e1 ++ e2).
      rewrite Hl2, Hl1, app_assoc. split_and!; [done| |].
      * apply Forall_app. split; (eapply Forall_impl; [done|]); simpl.
        -- intros ? ->%list_elem_of_singleton. left.
        -- intros ??. by right.
      * apply StronglySorted_app. split_and!; [|done|done].
        intros x1 x2 Hx1 Hx2.
        rewrite Forall_forall in He1. rewrite Forall_forall in He2.
        rewrite Forall_forall in Hn.
        apply He1, list_elem_of_singleton in Hx1 as ->. by apply Hn, He2.
    + exists e1. split_and!; [done| |done].
      eapply Forall_impl; [done|]. simpl.
      intros ? ->%list_elem_of_singleton. left.
Qed.
End effects.

(** ** Patch-back: order, frame, unknown keys *)

Lemma StronglySorted_lookup {A} (R : relation A) (l : list A) i j x y :
  StronglySorted R l → l !! i = Some x → l !! j = Some y → (i < j)%nat →
  R x y.
Proof.
  intros Hs. revert i j. induction Hs as [|a l Hl IH Ha]; intros i j; [done|].
  destruct i as [|i], j as [|j]; simpl; try lia.
  - intros [= ->] Hy _. rewrite Forall_forall in Ha.
    by eapply Ha, list_elem_of_lookup_2.
  - intros Hx Hy Hij. apply (IH i j); [done|done|lia].
Qed.

(** C2. In the log of the mutating calls made by one call of
    [update_state_from_dict], a call on a property of higher priority never
    comes after a call on a property of lower priority, whatever the order
    of the keys of [changes] is. The names are visited in [patch_order]:
    the recognized keys of [changes], sorted by descending priority. *)
Theorem patch_priority_order `{!StateHost} (state : State) (changes : record) :
  patch_order state changes ≡ₚ filter (recognized state) (changes.*1) ∧
  StronglySorted (higher_first state) (patch_order state changes) ∧
  ∀ (i j : nat) (ea eb : event),
    log (run_update state changes).2 !! i = Some ea →
    log (run_update state changes).2 !! j = Some eb →
    _update_priority state (ev_name eb) < _update_priority state (ev_name ea) →
    (i < j)%nat.
Proof.
  split_and!; [apply patch_order_Permutation|apply patch_order_sorted|].
  intros i j ea eb Hi Hj Hprio. unfold run_update in *.
  rewrite update_state_from_dict_order in Hi, Hj.
  destruct (length changes =? 0)%nat; [done|]. simpl in Hi, Hj.
  destruct (for_patch_sorted state changes (patch_order state changes)
              (World state []) (patch_order_sorted state changes))
    as (evs & Hlog & _ & Hsorted).
  simpl in Hlog. rewrite Hlog in Hi, Hj.
  destruct (lt_eq_lt_dec i j) as [[Hlt|Heq]|Hgt]; [done| |].
  - subst j. rewrite Hi in Hj. injection Hj as ->. lia.
  - pose proof (StronglySorted_lookup _ _ _ _ _ _ Hsorted Hj Hi Hgt) as Hle.
    unfold higher_first in Hle. lia.
Qed.

(** C5. [update_state_from_dict] makes its mutating calls only on names that
    are keys of [changes]; a property whose name is not a key keeps its
    value; and for the empty record the call returns at once, with the state
    as it was and no mutating call made. *)
Theorem patch_frame `{!StateHost} (state : State) (changes : record) :
  Forall (λ e, ev_name e ∈ changes.*1) (log (run_update state changes).2) ∧
  (∀ name, name ∉ changes.*1 →
           getattr (live (run_update state changes).2) name
           = getattr state name) ∧
  run_update state [] = (Ret tt, World state []).
Proof.
  destruct (update_state_from_dict_touches changes (World state []))
    as [_ Hframe (evs & Hlog & Hevs)].
  simpl in *. unfold run_update. split_and!; [| |done].
  - rewrite Hlog. eapply Forall_impl; [done|]. simpl.
    intros e He. by apply patch_order_elem_of in He as [? _].
  - intros name Hname. unfold getattr. rewrite Hframe; [done|].
    intros Hin. by apply patch_order_elem_of in Hin as [? _].
Qed.

Lemma record_get_filter (P : string → Prop) `{!∀ n, Decision (P n)}
    (changes : record) name :
  P name →
  record_get (filter (λ kv, P kv.1) changes) name = record_get changes name.
Proof.
  intros HP. induction changes as [|[k v] rest IH]; [done|].
  rewrite filter_cons. simpl.
  destruct (String.eqb_spec k name) as [->|Hne].
  - rewrite decide_True by done. simpl. by rewrite String.eqb_refl.
  - case_decide; [|done]. simpl.
    by rewrite (proj2 (String.eqb_neq _ _) Hne).
Qed.

Lemma collect_groups_filter (state : State) (changes : record) :
  collect_groups state (filter (λ kv, recognized state kv.1) changes)
  = collect_groups state changes.
Proof.
  unfold collect_groups. generalize (@nil (Z * list string)) as groups.
  induction changes as [|[k v] rest IH]; intros groups; [done|].
  rewrite filter_cons. simpl.
  destruct (decide (recognized state k)) as [Hk|Hk]; unfold recognized in Hk.
  - simpl. unfold group_step at 2 4. by rewrite Hk, IH.
  - apply not_true_is_false in Hk. unfold group_step at 3.
    rewrite Hk. apply IH.
Qed.

Lemma patch_property_ext `{!StateHost} (changes changes' : record) name w :
  record_get changes name = record_get changes' name →
  patch_property changes name w = patch_property changes' name w.
Proof.
  intros Hget. unfold patch_property. rewrite !bind_run.
  destruct (py_getattr name w) as [[cur|e] w']; [|done].
  destruct cur; rewrite ?Hget; try done.
  apply for_ext. intros i w'' _. unfold patch_item. by rewrite Hget.
Qed.

(** C6. The keys of [changes] that the state does not recognize as callback
    properties play no part in [update_state_from_dict]: the call does what
    it does on the record without them (same outcome, same final state, same
    mutating calls), the names listed by [dir(state)] are the same after the
    call, and when no key is recognized the call returns normally and leaves
    the state as it was. *)
Theorem unknown_keys_ignored `{!StateHost} (state : State) (changes : record) :
  run_update state changes
  = run_update state (filter (λ kv, recognized state kv.1) changes) ∧
  dir (live (run_update state changes).2) = dir state ∧
  ((∀ name, name ∈ changes.*1 → is_callback_property state name = false) →
   run_update state changes = (Ret tt, World state [])).
Proof.
  assert (Heq : run_update state changes
    = run_update state (filter (λ kv, recognized state kv.1) changes)).
  { unfold run_update. rewrite !update_state_from_dict_order.
    assert (Horder : patch_order state
                       (filter (λ kv, recognized state kv.1) changes)
                     = patch_order state changes).
    { unfold patch_order. by rewrite collect_groups_filter. }
    simpl. rewrite Horder.
    destruct (filter _ changes) as [|kv rest] eqn:Hf.
    - simpl. rewrite <-Horder. destruct (length changes =? 0)%nat; done.
    - destruct changes as [|kv' rest']; [done|].
      change (length (kv :: rest) =? 0)%nat with false.
      change (length (kv' :: rest') =? 0)%nat with false.
      cbv iota. rewrite <-Hf.
      apply for_ext. intros name w Hname. apply patch_property_ext.
      symmetry. apply (record_get_filter (recognized state)).
      by apply patch_order_elem_of in Hname as [_ ?]. }
  split_and!; [done| |].
  - apply class_of_dir.
    apply (touches_class _ _ _
             (update_state_from_dict_touches changes (World state []))).
  - intros Hnone. rewrite Heq.
    replace (filter (λ kv, recognized state kv.1) changes)
      with (@nil (string * value)); [done|].
    symmetry. clear Heq. induction changes as [|[k v] rest IH]; [done|].
    rewrite filter_cons, decide_False.
    + apply IH. intros name Hname. apply Hnone. by right.
    + unfold recognized. simpl. rewrite Hnone; [done|left].
Qed.

(** ** Patch-back of a collection *)

Lemma run_update_order `{!StateHost} (state : State) (changes : record) :
  run_update state changes
  = for_ (patch_order state changes) (patch_property changes) (World state []).
Proof.
  unfold run_update. rewrite update_state_from_dict_order.
  by destruct changes.
Qed.

Lemma for_app_Ret {A} (l1 l2 : list A) (body : A → M unit) w w' :
  for_ (l1 ++ l2) body w = (Ret tt, w') →
  ∃ w1, for_ l1 body w = (Ret tt, w1) ∧ for_ l2 body w1 = (Ret tt, w').
Proof.
  rewrite for_app. destruct (for_ l1 body w) as [[[]|e] w1]; [|done].
  intros. by exists w1.
Qed.

Lemma for_snoc {A} (l : list A) (x : A) (body : A → M unit) w :
  for_ (l ++ [x]) body w = match for_ l body w with
                           | (Ret _, w') => body x w'
                           | (Raise e, w') => (Raise e, w')
                           end.
Proof.
  rewrite for_app. destruct (for_ l body w) as [[[]|e] w']; [|done].
  rewrite for_cons. by destruct (body x w') as [[[]|e] w''].
Qed.

Section collection.
Context `{!StateHost}.

Variable changes : record.
Variable name : string.
Variable sub : list (key * value).
Hypothesis Hsub : record_get changes name = Some (VDict sub).

Lemma patch_item_dict w cur i old :
  getattr (live w) name = Some (VCallbackList cur) →
  cur !! i = Some old →
  getattr (live (patch_item changes name i w).2) name
  = Some (VCallbackList (<[i:=patched_item sub i old]> cur)) ∧
  ((patch_item changes name i w).1 = Ret tt ∨
   ∃ s v e, old = VState s ∧ dict_get sub (KInt (Z.of_nat i)) = Some v ∧
            (update_from_dict s v).1 = Some e).
Proof.
  intros Hcur Hold. unfold patch_item, patched_item.
  rewrite bind_run, Hsub. simpl. rewrite bind_run. unfold lift at 1.
  simpl. destruct (dict_get sub (KInt (Z.of_nat i))) as [v|] eqn:Hv.
  - rewrite bool_decide_true by done. rewrite bind_run.
    unfold list_getitem, py_getattr. rewrite bind_run, Hcur. simpl.
    rewrite Hold. simpl.
    destruct (is_State old) eqn:Hstate.
    + destruct old; try done. rewrite bind_run. unfold lift. simpl.
      rewrite ?Hv. unfold item_update_from_dict. rewrite Hcur, Hold.
      destruct (update_from_dict s v) as [[e|] s'] eqn:Hup; simpl;
        rewrite getattr_store_eq; (split; [done|]).
      * right. exists s, v, e. by rewrite Hup.
      * by left.
    + rewrite bind_run. unfold lift. simpl. rewrite ?Hv.
      unfold list_setitem. rewrite Hcur.
      rewrite decide_True by by eapply lookup_lt_Some.
      simpl. rewrite getattr_store_eq. split; [|by left].
      by destruct old.
  - rewrite bool_decide_false by (by intros [? ?]). simpl.
    rewrite Hcur, list_insert_id by done. split; [done|by left].
Qed.

(** The loop over [range(len(callback_list))], after [m] iterations. *)
Lemma patch_items_prefix w items (m : nat) :
  getattr (live w) name = Some (VCallbackList items) →
  (m ≤ length items)%nat →
  ((for_ (seq 0 m) (patch_item changes name) w).1 = Ret tt →
   ∃ cur,
     getattr (live (for_ (seq 0 m) (patch_item changes name) w).2) name
     = Some (VCallbackList cur) ∧
     length cur = length items ∧
     ∀ i : nat, cur !! i = if decide (i < m)%nat
                           then patched_item sub i <$> items !! i
                           else items !! i) ∧
  (host_accepts sub items →
   (for_ (seq 0 m) (patch_item changes name) w).1 = Ret tt).
Proof.
  intros Hitems. induction m as [|m IH]; intros Hm.
  - split; [|done]. intros _. exists items. split_and!; [done|done|].
    intros i. by rewrite decide_False by lia.
  - destruct IH as [IHret IHok]; [lia|].
    rewrite seq_S, for_snoc. change (0 + m)%nat with m.
    destruct (for_ (seq 0 m) (patch_item changes name) w)
      as [[[]|e] w1] eqn:Hpre; cbn [fst snd] in *.
    2:{ split; [done|]. intros Hok. by specialize (IHok Hok). }
    destruct (IHret eq_refl) as (cur & Hcur & Hlen & Hlook).
    destruct (lookup_lt_is_Some_2 items m) as [old Hold]; [lia|].
    assert (Hcurm : cur !! m = Some old).
    { by rewrite Hlook, decide_False by lia. }
    destruct (patch_item_dict w1 cur m old Hcur Hcurm) as [Hget Hout].
    destruct (patch_item changes name m w1) as [[[]|e] w2];
      cbn [fst snd] in *.
    + split; [|done]. intros _.
      exists (<[m:=patched_item sub m old]> cur).
      split_and!; [done|by rewrite length_insert|].
      intros i. destruct (decide (i = m)) as [->|Hne].
      * rewrite list_lookup_insert_eq by lia.
        by rewrite decide_True, Hold by lia.
      * rewrite list_lookup_insert_ne, Hlook by done.
        destruct (decide (i < m)%nat), (decide (i < S m)%nat);
          (done || lia).
    + split; [done|]. intros Hok.
      destruct Hout as [?|(s & v & e' & -> & Hv & He)]; [done|].
      by rewrite (Hok m s v Hold Hv) in He.
Qed.

Lemma patch_property_collection w items :
  getattr (live w) name = Some (VCallbackList items) →
  ((patch_property changes name w).1 = Ret tt →
   ∃ items',
     getattr (live (patch_property changes name w).2) name
     = Some (VCallbackList items') ∧
     length items' = length items ∧
     ∀ i : nat, items' !! i = patched_item sub i <$> items !! i) ∧
  (host_accepts sub items → (patch_property changes name w).1 = Ret tt).
Proof.
  intros Hitems.
  destruct (patch_items_prefix w items (length items) Hitems (le_n _))
    as [Hret Hok].
  unfold patch_property, py_getattr. rewrite bind_run, Hitems. simpl.
  split; [|done]. intros Hr.
  destruct (Hret Hr) as (cur & Hcur & Hlen & Hlook).
  exists cur. split_and!; [done|done|]. intros i. rewrite Hlook.
  case_decide as Hi; [done|].
  rewrite (lookup_ge_None_2 items i) by lia. done.
Qed.
End collection.

(** C4. Let [name] be a recognized property holding a [CallbackList] of
    length n, and let [changes[name]] be a dict [sub]. After a call of
    [update_state_from_dict] that returns, the list still has length n; its
    item [i] is the old item when [i] is not a key of [sub], the old item
    after its own [update_from_dict(sub[i])] when it is a state, and
    [sub[i]] otherwise. Keys of [sub] that are not positions below n play no
    part. On the record [{name: sub}] the call raises nothing unless an
    [update_from_dict] called on an item does. *)
Theorem sparse_collection_patch `{!StateHost} (state : State) (name : string)
    (items : list value) (sub : list (key * value)) :
  is_callback_property state name = true →
  getattr state name = Some (VCallbackList items) →
  (∀ (changes : record) (w : world),
     NoDup changes.*1 →
     record_get changes name = Some (VDict sub) →
     run_update state changes = (Ret tt, w) →
     ∃ items', getattr (live w) name = Some (VCallbackList items') ∧
               length items' = length items ∧
               ∀ i : nat, items' !! i = patched_item sub i <$> items !! i) ∧
  (host_accepts sub items →
   (run_update state [(name, VDict sub)]).1 = Ret tt).
Proof.
  intros Hcb Hitems. split.
  - intros changes w Hnd Hsub. rewrite run_update_order.
    assert (Hin : name ∈ patch_order state changes).
    { apply patch_order_elem_of. split; [|done].
      clear -Hsub. induction changes as [|[k v] rest IH]; [done|].
      simpl in Hsub. destruct (String.eqb_spec k name) as [->|]; [left|].
      right. by apply IH. }
    pose proof (patch_order_NoDup state changes Hnd) as Hnd'.
    apply list_elem_of_split in Hin as (l1 & l2 & Hsplit).
    rewrite Hsplit in *.
    apply NoDup_app in Hnd' as (_ & Hl1 & [Hl2 _]%NoDup_cons).
    intros (w1 & Hrun1 & Hrun2)%for_app_Ret.
    rewrite for_cons in Hrun2.
    destruct (patch_property changes name w1) as [[[]|e] w2] eqn:Hstep;
      [|done].
    pose proof (for_patch_touches changes l1 (World state [])) as [_ Hf1 _].
    pose proof (for_patch_touches changes l2 w2) as [_ Hf2 _].
    rewrite Hrun1 in Hf1. rewrite Hrun2 in Hf2. simpl in *.
    assert (Hw1 : getattr (live w1) name = Some (VCallbackList items)).
    { unfold getattr. rewrite Hf1; [done|].
      intros ?. eapply Hl1; [done|left]. }
    destruct (patch_property_collection changes name sub Hsub w1 items Hw1)
      as [Hret _].
    rewrite Hstep in Hret. destruct (Hret eq_refl) as (items' & ? & ? & ?).
    exists items'. split_and!; [|done|done].
    unfold getattr. by rewrite Hf2.
  - intros Hok. rewrite run_update_order.
    assert (Horder : patch_order state [(name, VDict sub)] = [name]).
    { apply Permutation_singleton_r. rewrite patch_order_Permutation.
      simpl. rewrite filter_cons, decide_True by done. done. }
    rewrite Horder, for_cons.
    assert (Hsub : record_get [(name, VDict sub)] name = Some (VDict sub)).
    { simpl. by rewrite String.eqb_refl. }
    destruct (patch_property_collection _ name sub Hsub (World state [])
                items Hitems) as [_ Hret].
    specialize (Hret Hok).
    by destruct (patch_property _ name _) as [[[]|e] w2].
Qed.

(** ** The marker on patch-back *)

Lemma patch_property_scalar `{!StateHost} (changes : record) name w cur new :
  getattr (live w) name = Some cur → is_CallbackList cur = false →
  record_get changes name = Some new →
  patch_property changes name w
  = if py_ne_str new MAGIC_IGNORE
    then (Ret tt, World (store_attr name new (live w))
                        (log w ++ [ESetattr name new]))
    else (Ret tt, w).
Proof.
  intros Hcur Hscalar Hnew. unfold patch_property, py_getattr.
  rewrite bind_run, Hcur. simpl.
  destruct cur; try done; rewrite bind_run, Hnew; simpl;
    by destruct (py_ne_str new MAGIC_IGNORE).
Qed.

(** The guard of the [else] branch: a property that does not hold a
    [CallbackList] keeps its value when [changes] has the marker for it, and
    no mutating call is made on it. *)
Lemma sentinel_inert_scalar `{!StateHost} (state : State) (changes : record)
    name v :
  record_get changes name = Some (VStr MAGIC_IGNORE) →
  getattr state name = Some v → is_CallbackList v = false →
  getattr (live (run_update state changes).2) name = Some v ∧
  Forall (λ e, ev_name e ≠ name) (log (run_update state changes).2).
Proof.
  intros Hnew Hv Hscalar. rewrite run_update_order.
  pose (P := λ w w' : world,
    getattr (live w) name = Some v →
    getattr (live w') name = Some v ∧
    ∃ evs, log w' = log w ++ evs ∧ Forall (λ e, ev_name e ≠ name) evs).
  assert (HP : P (World state [])
                 (for_ (patch_order state changes) (patch_property changes)
                       (World state [])).2).
  { apply for_preserves.
    - intros w Hw. split; [done|]. exists []. by rewrite app_nil_r.
    - intros w1 w2 w3 H12 H23 Hw1.
      destruct (H12 Hw1) as (Hw2 & e1 & Hl1 & He1).
      destruct (H23 Hw2) as (Hw3 & e2 & Hl2 & He2).
      split; [done|]. exists (e1 ++ e2).
      split; [by rewrite Hl2, Hl1, app_assoc|by apply Forall_app].
    - intros n w _ Hw. destruct (decide (n = name)) as [->|Hne].
      + rewrite (patch_property_scalar _ _ _ _ _ Hw Hscalar Hnew).
        change (py_ne_str (VStr MAGIC_IGNORE) MAGIC_IGNORE) with false.
        split; [done|].
        exists []. by rewrite app_nil_r.
      + destruct (patch_property_touches changes n w)
          as [_ Hframe (evs & Hlog & Hevs)].
        split.
        * unfold getattr. rewrite Hframe; [done|].
          by intros ->%list_elem_of_singleton.
        * exists evs. split; [done|]. eapply Forall_impl; [done|]. simpl.
          by intros e ->%list_elem_of_singleton. }
  destruct (HP Hv) as (? & evs & Hlog & ?). simpl in Hlog.
  by rewrite Hlog.
Qed.

(** ** Round trip *)




Lemma py_ne_str_true v s : v ≠ VStr s → py_ne_str v s = true.
Proof.
  destruct v; try done. simpl. intros Hne.
  destruct (String.eqb_spec s0 s); [congruence|done].
Qed.


(** A loop that visits each name once puts every visited property at its
    target and leaves the others alone. *)
Lemma for_patch_each `{!StateHost} (changes : record)
    (ready : string → value → Prop) (target : string → value) names w :
  NoDup names →
  (∀ n w' cur, n ∈ names → getattr (live w') n = Some cur → ready n cur →
     (patch_property changes n w').1 = Ret tt ∧
     getattr (live (patch_property changes n w').2) n = Some (target n)) →
  (∀ n, n ∈ names → ∃ cur, getattr (live w) n = Some cur ∧ ready n cur) →
  ∃ w', for_ names (patch_property changes) w = (Ret tt, w') ∧
        (∀ n, n ∈ names → getattr (live w') n = Some (target n)) ∧
        (∀ m, m ∉ names → getattr (live w') m = getattr (live w) m).
Proof.
  intros Hnd Hstep. revert w.
  induction Hnd as [|n names Hn Hnd IH]; intros w Hready.
  - exists w. split_and!; [done| |done]. by intros n ?%elem_of_nil.
  - destruct (Hready n) as (cur & Hcur & Hrdy); [left|].
    destruct (Hstep n w cur) as [Hret Hget]; [left|done|done|].
    pose proof (patch_property_touches changes n w) as [_ Hframe _].
    rewrite for_cons.
    destruct (patch_property changes n w) as [[[]|e] w1]; [|done].
    simpl in *.
    assert (Hother : ∀ m, m ≠ n → getattr (live w1) m = getattr (live w) m).
    { intros m Hm. unfold getattr. rewrite Hframe; [done|].
      by intros ?%list_elem_of_singleton. }
    destruct IH with (w := w1) as (w' & Hrun & Hin & Hout).
    { intros m w' c Hm. apply Hstep. by right. }
    { intros m Hm. destruct (Hready m) as (c & Hc & ?); [by right|].
      exists c. rewrite Hother; [done|]. by intros ->. }
    exists w'. split_and!; [done| |].
    + intros m [->|Hm]%elem_of_cons; [|by apply Hin].
      by rewrite Hout.
    + intros m [Hmn Hm]%not_elem_of_cons. by rewrite Hout, Hother.
Qed.


(** ** The JSON encoder and the [GlueState] trait *)

(** C9, amended. [GlueState.validate] returns the value as it is exactly
    when the value is [None] or a state; for any other value it raises
    TraitError with the message "value should be a glue State instance".
    It never returns a value other than the one it was given. *)
Theorem validate_state_slot (v : value) :
  (GlueState_validate v = Ret v ↔ v = VNone ∨ is_State v = true) ∧
  (v ≠ VNone → is_State v = false →
   GlueState_validate v
   = Raise (TraitError "value should be a glue State instance")) ∧
  (∀ v', GlueState_validate v = Ret v' → v' = v).
Proof.
  split_and!.
  - destruct v; simpl; split; (done || by auto || by intros [?|?]).
  - by destruct v.
  - intros v'. destruct v; simpl; congruence.
Qed.

(** C10. [GlueState.validate] lets [None] through, and [GlueState.set] then
    stores it and raises AttributeError on [None.add_global_callback]: no
    callback is registered. [GlueState.set] returns normally exactly when
    the value is a state. *)
Theorem set_None_raises (obj : widget) :
  GlueState_validate VNone = Ret VNone ∧
  GlueState_set obj VNone
  = (Raise AttributeError, Widget VNone (registered obj)) ∧
  ∀ v, (GlueState_set obj v).1 = Ret tt ↔ is_State v = true.
Proof.
  split_and!; [done|done|]. intros v. by destruct v.
Qed.

(** C1. The marker is written onto live state when it comes at a position
    of a [CallbackList] whose item is not a state: the reference at
    position 0 is replaced by the marker string. *)
Theorem sentinel_assigned_in_collection `{!StateHost} :
  encoder_default (VRef 7) = Ret (VStr MAGIC_IGNORE) ∧
  run_update Sample.subsets Sample.subsets_patch
  = (Ret tt,
     World [Attr "subsets" true 0 (VCallbackList [VStr MAGIC_IGNORE; VInt 3])]
           [ESetitem "subsets" 0 (VStr MAGIC_IGNORE)]).
Proof. split; reflexivity. Qed.


(** C8 as stated fails: a callback property whose name starts with an
    underscore is left out of the result of [state_to_dict] whatever it
    holds, so a [CallbackList] held by it, empty or not, has no key and no
    dict. *)
Lemma state_to_dict_collection_counterexample :
  is_callback_property Wire.private_lists "_layers" = true ∧
  getattr Wire.private_lists "_layers" = Some (VCallbackList []) ∧
  record_get (state_to_dict Wire.private_lists) "_layers" = None ∧
  is_callback_property Wire.private_lists "_marks" = true ∧
  getattr Wire.private_lists "_marks"
  = Some (VCallbackList [VInt 1; VInt 2]) ∧
  record_get (state_to_dict Wire.private_lists) "_marks" = None ∧
  state_to_dict Wire.private_lists = [].
Proof. by split_and!. Qed.

(** The length of a list is part of the shape that the round trip needs:
    a list of the patched state that is shorter than the one of the
    original is not extended, so the items are not restored. *)
Example round_trip_shorter_list :
  class_of Wire.levels_fresh = class_of Wire.levels ∧
  run_update (H:=Sample.host) Wire.levels_fresh (state_to_dict Wire.levels)
  = (Ret tt, World Wire.levels_fresh []).
Proof. by split. Qed.

(** C9 as stated fails on the text of the message. *)
Lemma validate_message_counterexample :
  VInt 5 ≠ VNone ∧ is_State (VInt 5) = false ∧
  GlueState_validate (VInt 5)
  ≠ Raise (TraitError "value should be a state instance").
Proof. done. Qed.

(** ** Evaluations *)

Example state_to_dict_viewer :
  state_to_dict Sample.viewer =
  [("layers", VDict [(KInt 0, VDict [(KStr "color", VStr "red")]);
                     (KInt 1, VDict [(KStr "color", VStr "green")]);
                     (KInt 2, VDict [(KStr "color", VStr "blue")])]);
   ("title", VStr "plot");
   ("x_att", VRef 1);
   ("x_min", VInt 0)].
Proof. reflexivity. Qed.

(** The key of priority 10 is applied first although it comes second. *)
Example run_update_limits :
  run_update (H:=Sample.host) Sample.viewer Sample.limits_patch =
  (Ret tt,
   World (store_attr "x_min" (VInt 5)
            (store_attr "x_att" (VRef 2) Sample.viewer))
         [ESetattr "x_att" (VRef 2); ESetattr "x_min" (VInt 5)]).
Proof. reflexivity. Qed.

(** Item 1 is patched through its own [update_from_dict]; position 5 does
    not exist and nothing is done for it. *)
Example run_update_layers :
  run_update (H:=Sample.host) Sample.viewer
    [("layers", VDict Sample.layers_patch)] =
  (Ret tt,
   World (store_attr "layers"
            (VCallbackList [Sample.layer "red"; Sample.layer "black";
                            Sample.layer "blue"]) Sample.viewer)
         [EUpdate "layers" 1 (VDict [(KStr "color", VStr "black")])]).
Proof. reflexivity. Qed.

(** A sub-mapping whose keys are strings, as JSON has them, is looked up
    with int positions and patches nothing. *)
Example run_update_string_keys :
  run_update (H:=Sample.host) Sample.subsets
    [("subsets", VDict [(KStr "0", VInt 1)])] =
  (Ret tt, World Sample.subsets []).
Proof. reflexivity. Qed.

(** A value that is not a container of ints, for a property that holds a
    non-empty [CallbackList]: [i in changes[name]] raises. *)
Example run_update_not_a_container :
  run_update (H:=Sample.host) Sample.subsets [("subsets", VInt 1)] =
  (Raise TypeError, World Sample.subsets []).
Proof. reflexivity. Qed.

Example GlueState_set_state :
  GlueState_set (Widget VNone []) (Sample.layer "red") =
  (Ret tt, Widget (Sample.layer "red") [[Attr "color" true 0 (VStr "red")]]).
Proof. reflexivity. Qed.

Example GlueState_set_int :
  GlueState_set (Widget VNone []) (VInt 5) =
  (Raise (TraitError "value should be a glue State instance"),
   Widget VNone []).
Proof. reflexivity. Qed.

(** ** The theorems on the examples *)


Lemma sample_host_accepts :
  host_accepts (H:=Sample.host) Sample.layers_patch Sample.layers.
Proof.
  intros [|[|[|i]]] s v; simpl; try done.
  intros _ [= <-]. done.
Qed.

Lemma state_to_dict_keys_witness :
  NoDup (dir Sample.viewer) ∧
  (state_to_dict Sample.viewer).*1
  = filter (serialized Sample.viewer) (dir Sample.viewer) ∧
  ∀ name, name ∈ (state_to_dict Sample.viewer).*1 ↔
          name ∈ dir Sample.viewer ∧ startswith_underscore name = false
          ∧ is_callback_property Sample.viewer name = true.
Proof.
  assert (Hnd : NoDup (dir Sample.viewer)) by compute_done.
  split; [exact Hnd|]. exact (state_to_dict_keys Sample.viewer Hnd).
Defined.

Lemma state_to_dict_collection_witness :
  getattr Sample.viewer "layers" = Some (VCallbackList Sample.layers) ∧
  startswith_underscore "layers" = false ∧
  is_callback_property Sample.viewer "layers" = true ∧
  ∃ d, record_get (state_to_dict Sample.viewer) "layers" = Some (VDict d) ∧
       d.*1 = (λ i, KInt (Z.of_nat i)) <$> seq 0 (length Sample.layers) ∧
       (∀ i : nat, dict_get d (KInt (Z.of_nat i))
                   = serialize_item <$> Sample.layers !! i) ∧
       (∀ s, serialize_item (VState s)
             = VDict (dict_of_record (state_to_dict s))) ∧
       (∀ v, is_State v = false → serialize_item v = v) ∧
       (Sample.layers = [] → d = []).
Proof.
  split_and!; [reflexivity|reflexivity|reflexivity|].
  exact (state_to_dict_collection Sample.viewer "layers" Sample.layers
           eq_refl eq_refl eq_refl).
Defined.

Lemma patch_priority_order_witness :
  log (run_update (H:=Sample.host) Sample.viewer Sample.limits_patch).2
    !! 0%nat = Some (ESetattr "x_att" (VRef 2)) ∧
  log (run_update (H:=Sample.host) Sample.viewer Sample.limits_patch).2
    !! 1%nat = Some (ESetattr "x_min" (VInt 5)) ∧
  _update_priority Sample.viewer "x_min"
  < _update_priority Sample.viewer "x_att" ∧
  (0 < 1)%nat.
Proof.
  split_and!; [reflexivity|reflexivity|reflexivity|].
  exact (proj2 (proj2 (patch_priority_order (H:=Sample.host)
                         Sample.viewer Sample.limits_patch))
           0%nat 1%nat (ESetattr "x_att" (VRef 2)) (ESetattr "x_min" (VInt 5))
           eq_refl eq_refl eq_refl).
Defined.

Lemma sparse_collection_patch_witness :
  is_callback_property Sample.viewer "layers" = true ∧
  getattr Sample.viewer "layers" = Some (VCallbackList Sample.layers) ∧
  NoDup [("layers", VDict Sample.layers_patch)].*1 ∧
  host_accepts (H:=Sample.host) Sample.layers_patch Sample.layers ∧
  (∃ items',
     getattr (live (run_update (H:=Sample.host) Sample.viewer
                      [("layers", VDict Sample.layers_patch)]).2) "layers"
     = Some (VCallbackList items') ∧
     length items' = length Sample.layers ∧
     ∀ i : nat, items' !! i
                = patched_item (H:=Sample.host) Sample.layers_patch i
                    <$> Sample.layers !! i) ∧
  (run_update (H:=Sample.host) Sample.viewer
     [("layers", VDict Sample.layers_patch)]).1 = Ret tt.
Proof.
  assert (Hnd : NoDup [("layers", VDict Sample.layers_patch)].*1)
    by compute_done.
  split_and!; [reflexivity|reflexivity|exact Hnd|exact sample_host_accepts| |].
  - exact (proj1 (sparse_collection_patch (H:=Sample.host) Sample.viewer
                    "layers" Sample.layers Sample.layers_patch
                    eq_refl eq_refl)
             [("layers", VDict Sample.layers_patch)] _ Hnd eq_refl eq_refl).
  - exact (proj2 (sparse_collection_patch (H:=Sample.host) Sample.viewer
                    "layers" Sample.layers Sample.layers_patch
                    eq_refl eq_refl) sample_host_accepts).
Defined.

Lemma patch_frame_witness :
("title" ∉ Sample.limits_patch.*1) ∧
  getattr (live (run_update (H:=Sample.host) Sample.viewer
                   Sample.limits_patch).2) "title"
  = getattr Sample.viewer "title".
Proof.
  assert (Hout : "title" ∉ Sample.limits_patch.*1) by compute_done.
  split; [exact Hout|].
  exact (proj1 (proj2 (patch_frame (H:=Sample.host) Sample.viewer
                         Sample.limits_patch)) "title" Hout).
Defined.

Lemma unknown_keys_ignored_witness :
  (∀ name, name ∈ [("doesNotExist", VInt 5)].*1 →
           is_callback_property Sample.viewer name = false) ∧
  run_update (H:=Sample.host) Sample.viewer [("doesNotExist", VInt 5)]
  = (Ret tt, World Sample.viewer []).
Proof.
  assert (Hnone : ∀ name, name ∈ [("doesNotExist", VInt 5)].*1 →
                          is_callback_property Sample.viewer name = false).
  { intros name Hin. apply list_elem_of_singleton in Hin. subst name.
    reflexivity. }
  split; [exact Hnone|].
  exact (proj2 (proj2 (unknown_keys_ignored (H:=Sample.host) Sample.viewer
                         [("doesNotExist", VInt 5)])) Hnone).
Defined.


Lemma validate_state_slot_witness :
  VInt 5 ≠ VNone ∧ is_State (VInt 5) = false ∧
  GlueState_validate (VInt 5)
  = Raise (TraitError "value should be a glue State instance").
Proof.
  assert (Hne : VInt 5 ≠ VNone) by discriminate.
  split_and!; [exact Hne|reflexivity|].
  exact (proj1 (proj2 (validate_state_slot (VInt 5))) Hne eq_refl).
Defined.

Lemma set_None_raises_witness :
  is_State (Sample.layer "red") = true ∧
  (GlueState_set (Widget VNone []) (Sample.layer "red")).1 = Ret tt.
Proof.
  split; [reflexivity|].
  exact (proj2 (proj2 (proj2 (set_None_raises (Widget VNone [])))
                  (Sample.layer "red")) eq_refl).
Defined.

(** * Part III: further properties *)

(** ** Visits of the second loop *)

Lemma record_get_elem_of (changes : record) name v :
  record_get changes name = Some v → name ∈ changes.*1.
Proof.
  induction changes as [|[k x] rest IH]; [done|]. simpl.
  destruct (String.eqb_spec k name) as [->|]; [left|]. right. by apply IH.
Qed.

Lemma record_get_is_Some (changes : record) name :
  name ∈ changes.*1 → is_Some (record_get changes name).
Proof.
  induction changes as [|[k x] rest IH]; [by intros ?%elem_of_nil|]. simpl.
  destruct (String.eqb_spec k name) as [->|Hne]; [by eexists|].
  intros [?|?]%elem_of_cons; [congruence|by apply IH].
Qed.

Lemma for_skip {A} (l : list A) (body : A → M unit) w :
  (∀ x, x ∈ l → body x w = (Ret tt, w)) → for_ l body w = (Ret tt, w).
Proof.
  induction l as [|x l IH]; intros Hbody; [done|].
  rewrite for_cons, Hbody by left. apply IH. intros. apply Hbody. by right.
Qed.

(** In a loop that returns, a name that is visited once is patched from
    the value it had before the loop, and keeps what its step leaves. *)
Lemma for_visit `{!StateHost} (changes : record) names m w w' :
  NoDup names → m ∈ names →
  for_ names (patch_property changes) w = (Ret tt, w') →
  ∃ w1 w2, lookup_attr m (live w1) = lookup_attr m (live w) ∧
           class_of (live w1) = class_of (live w) ∧
           patch_property changes m w1 = (Ret tt, w2) ∧
           lookup_attr m (live w') = lookup_attr m (live w2).
Proof.
  intros Hnd (l1 & l2 & ->)%list_elem_of_split.
  apply NoDup_app in Hnd as (_ & Hl1 & [Hl2 _]%NoDup_cons).
  intros (w1 & Hrun1 & Hrun2)%for_app_Ret. rewrite for_cons in Hrun2.
  destruct (patch_property changes m w1) as [[[]|e] w2] eqn:Hstep; [|done].
  pose proof (for_patch_touches changes l1 w) as [Hc1 Hf1 _].
  pose proof (for_patch_touches changes l2 w2) as [_ Hf2 _].
  rewrite Hrun1 in Hc1, Hf1. rewrite Hrun2 in Hf2. simpl in *.
  exists w1, w2. split_and!; [|done|done|by apply Hf2].
  apply Hf1. intros ?. eapply Hl1; [done|left].
Qed.

(** ** Properties that do not hold a [CallbackList] *)

Lemma lookup_attr_store_eq name v state a :
  lookup_attr name state = Some a →
  lookup_attr name (store_attr name v state)
  = Some (Attr (a_name a) (a_callback a) (a_priority a) v).
Proof.
  induction state as [|b rest IH]; [done|]. simpl.
  destruct (String.eqb_spec (a_name b) name) as [Heq|Hne]; simpl.
  - intros [= ->]. by rewrite (proj2 (String.eqb_eq _ _) Heq).
  - by rewrite (proj2 (String.eqb_neq _ _) Hne).
Qed.

(** The row of a property that does not hold a [CallbackList], after a call
    that returns. *)
Lemma run_scalar_lookup `{!StateHost} (state : State) (changes : record)
    (name : string) (a : attr value) (v : value) (w : world) :
  NoDup changes.*1 →
  lookup_attr name state = Some a → a_callback a = true →
  is_CallbackList (a_value a) = false →
  record_get changes name = Some v → v ≠ VStr MAGIC_IGNORE →
  run_update state changes = (Ret tt, w) →
  lookup_attr name (live w)
  = Some (Attr (a_name a) (a_callback a) (a_priority a) v).
Proof.
  intros Hnd Ha Hcb Hscalar Hv Hmarker. rewrite run_update_order.
  intros Hrun.
  assert (Hin : name ∈ patch_order state changes).
  { apply patch_order_elem_of. split; [by eapply record_get_elem_of|].
    unfold is_callback_property. by rewrite Ha. }
  destruct (for_visit changes _ name _ _
              (patch_order_NoDup state changes Hnd) Hin Hrun)
    as (w1 & w2 & Hm1 & _ & Hstep & Hm2).
  simpl in Hm1. rewrite <-Hm1 in Ha.
  assert (Hcur1 : getattr (live w1) name = Some (a_value a)).
  { unfold getattr. by rewrite Ha. }
  rewrite (patch_property_scalar _ _ _ _ _ Hcur1 Hscalar Hv) in Hstep.
  rewrite py_ne_str_true in Hstep by done. injection Hstep as <-.
  rewrite Hm2. by apply lookup_attr_store_eq.
Qed.

(** X1. A recognized key whose property does not hold a [CallbackList] and
    whose value is not the marker is applied: after a call that returns,
    the property has the value of the record. *)
Theorem patch_scalar_applied `{!StateHost} (state : State) (changes : record)
    (name : string) (cur v : value) (w : world) :
  NoDup changes.*1 →
  is_callback_property state name = true →
  getattr state name = Some cur → is_CallbackList cur = false →
  record_get changes name = Some v → v ≠ VStr MAGIC_IGNORE →
  run_update state changes = (Ret tt, w) →
  getattr (live w) name = Some v.
Proof.
  unfold is_callback_property, getattr.
  intros Hnd Hcb Hcur Hscalar Hv Hmarker Hrun.
  destruct (lookup_attr name state) as [a|] eqn:Ha; [|done].
  injection Hcur as <-.
  by rewrite (run_scalar_lookup state changes name a v w).
Qed.

Lemma patch_property_scalar_store `{!StateHost} (changes : record) name w
    cur :
  getattr (live w) name = Some cur → is_CallbackList cur = false →
  is_Some (record_get changes name) →
  patch_property changes name w
  = (Ret tt, World (scalar_store changes (live w) name)
                   (log w ++ option_list (scalar_event changes name))).
Proof.
  intros Hcur Hscalar [v Hv].
  rewrite (patch_property_scalar _ _ _ _ _ Hcur Hscalar Hv).
  unfold scalar_store, scalar_event. rewrite Hv.
  destruct (py_ne_str v MAGIC_IGNORE); [done|].
  destruct w. simpl. by rewrite app_nil_r.
Qed.

Lemma getattr_scalar_store_ne (changes : record) state n m :
  m ≠ n → getattr (scalar_store changes state n) m = getattr state m.
Proof.
  intros Hne. unfold scalar_store.
  destruct (record_get changes n) as [v|]; [|done].
  destruct (py_ne_str v MAGIC_IGNORE); [|done].
  by apply getattr_store_ne.
Qed.

Lemma for_scalar_steps `{!StateHost} (changes : record) names w :
  NoDup names →
  (∀ n, n ∈ names →
        is_Some (record_get changes n) ∧
        ∃ cur, getattr (live w) n = Some cur ∧ is_CallbackList cur = false) →
  for_ names (patch_property changes) w
  = (Ret tt, World (foldl (scalar_store changes) (live w) names)
                   (log w ++ omap (scalar_event changes) names)).
Proof.
  intros Hnd. revert w. induction Hnd as [|n names Hn Hnd IH]; intros w Hpre.
  - destruct w. simpl. by rewrite app_nil_r.
  - destruct (Hpre n) as (Hv & cur & Hcur & Hscalar); [left|].
    rewrite for_cons, (patch_property_scalar_store _ _ _ _ Hcur Hscalar Hv).
    rewrite IH.
    + simpl. rewrite <-app_assoc. do 3 f_equal.
      by destruct (scalar_event changes n).
    + intros m Hm. destruct (Hpre m) as (? & c & ? & ?); [by right|].
      split; [done|]. exists c. simpl.
      rewrite getattr_scalar_store_ne; [done|]. by intros ->.
Qed.

(** X2. When no recognized key is for a property that holds a
    [CallbackList], the call returns; it makes one [setattr] per recognized
    key whose value is not the marker, in the order of [patch_order], and
    nothing else. *)
Theorem scalar_patch_returns `{!StateHost} (state : State) (changes : record) :
  NoDup changes.*1 →
  scalar_patch state changes →
  run_update state changes
  = (Ret tt,
     World (foldl (scalar_store changes) state (patch_order state changes))
           (omap (scalar_event changes) (patch_order state changes))).
Proof.
  intros Hnd Hscalar. rewrite run_update_order, for_scalar_steps; [done| |].
  - by apply patch_order_NoDup.
  - intros n [Hn Hcb]%patch_order_elem_of. split.
    + by apply record_get_is_Some.
    + by apply Hscalar.
Qed.

(** ** Properties that hold a [CallbackList] *)

Lemma keeps_collections_refl w : keeps_collections w w.
Proof. intros name items ?. by exists items. Qed.

Lemma keeps_collections_trans w1 w2 w3 :
  keeps_collections w1 w2 → keeps_collections w2 w3 →
  keeps_collections w1 w3.
Proof.
  intros H12 H23 name items Hget.
  destruct (H12 name items Hget) as (items2 & Hget2 & Hlen2).
  destruct (H23 name items2 Hget2) as (items3 & Hget3 & Hlen3).
  exists items3. split; [done|congruence].
Qed.

Lemma keeps_collections_insert name items i v w events :
  getattr (live w) name = Some (VCallbackList items) →
  keeps_collections w
    (World (store_attr name (VCallbackList (<[i:=v]> items)) (live w)) events).
Proof.
  intros Hname m its Hm. simpl. destruct (decide (m = name)) as [->|Hne].
  - rewrite getattr_store_eq. eexists. split; [done|].
    rewrite length_insert. congruence.
  - rewrite getattr_store_ne by done. by exists its.
Qed.

Section collections.
Context `{!StateHost}.

Lemma list_setitem_keeps name i v w :
  keeps_collections w (list_setitem name i v w).2.
Proof.
  unfold list_setitem.
  destruct (getattr (live w) name) as [[]|] eqn:Hget;
    try apply keeps_collections_refl.
  case_decide; [|apply keeps_collections_refl].
  by apply keeps_collections_insert.
Qed.

Lemma item_update_keeps name i properties w :
  keeps_collections w (item_update_from_dict name i properties w).2.
Proof.
  unfold item_update_from_dict.
  destruct (getattr (live w) name) as [[]|] eqn:Hget;
    try apply keeps_collections_refl.
  destruct (items !! i) as [[]|]; try apply keeps_collections_refl.
  destruct (update_from_dict s properties) as [[e|] s']; simpl;
    by apply keeps_collections_insert.
Qed.

Lemma patch_item_keeps changes name i w :
  keeps_collections w (patch_item changes name i w).2.
Proof.
  unfold patch_item. rewrite bind_run.
  destruct (record_get changes name) as [new|];
    [|apply keeps_collections_refl].
  simpl. rewrite bind_run. unfold lift at 1.
  destruct (py_contains (Z.of_nat i) new) as [[]|];
    try apply keeps_collections_refl.
  rewrite bind_run. pose proof (list_getitem_world name i w) as Hw.
  destruct (list_getitem name i w) as [[item|e] w']; simpl in Hw; subst w';
    [|apply keeps_collections_refl].
  destruct (is_State item); rewrite bind_run; unfold lift;
    destruct (py_getitem new (Z.of_nat i));
    try apply keeps_collections_refl.
  - apply item_update_keeps.
  - apply list_setitem_keeps.
Qed.

Lemma patch_property_keeps changes name w :
  keeps_collections w (patch_property changes name w).2.
Proof.
  destruct (getattr (live w) name) as [cur|] eqn:Hcur.
  2:{ unfold patch_property, py_getattr. rewrite bind_run, Hcur.
      apply keeps_collections_refl. }
  destruct (is_CallbackList cur) eqn:Hkind.
  - destruct cur; try done.
    unfold patch_property, py_getattr. rewrite bind_run, Hcur. simpl.
    apply for_preserves;
      eauto using keeps_collections_refl, keeps_collections_trans,
                  patch_item_keeps.
  - destruct (record_get changes name) as [new|] eqn:Hnew.
    + rewrite (patch_property_scalar _ _ _ _ _ Hcur Hkind Hnew).
      destruct (py_ne_str new MAGIC_IGNORE); [|apply keeps_collections_refl].
      intros m its Hm. simpl. destruct (decide (m = name)) as [->|Hne].
      * rewrite Hcur in Hm. injection Hm as ->. done.
      * rewrite getattr_store_ne by done. by exists its.
    + unfold patch_property, py_getattr. rewrite bind_run, Hcur. simpl.
      destruct cur; try done; rewrite bind_run, Hnew;
        apply keeps_collections_refl.
Qed.

Lemma for_patch_keeps changes names w :
  keeps_collections w (for_ names (patch_property changes) w).2.
Proof.
  apply for_preserves;
    eauto using keeps_collections_refl, keeps_collections_trans,
                patch_property_keeps.
Qed.

Lemma patch_property_not_container changes name w items v :
  getattr (live w) name = Some (VCallbackList items) → items ≠ [] →
  record_get changes name = Some v → json_scalar v = true →
  patch_property changes name w = (Raise TypeError, w).
Proof.
  intros Hcur Hne Hv Hcont. unfold patch_property, py_getattr.
  rewrite bind_run, Hcur. simpl. destruct items as [|x items]; [done|].
  simpl length. rewrite <-cons_seq, for_cons.
  unfold patch_item. rewrite bind_run, Hv. simpl. rewrite bind_run.
  unfold lift at 1. by destruct v.
Qed.

Lemma patch_item_string_keyed changes name sub i w :
  record_get changes name = Some (VDict sub) → string_keyed sub = true →
  patch_item changes name i w = (Ret tt, w).
Proof.
  intros Hsub Hkeys. unfold patch_item. rewrite bind_run, Hsub. simpl.
  rewrite bind_run. unfold lift at 1. simpl.
  assert (Hnone : dict_get sub (KInt (Z.of_nat i)) = None).
  { clear Hsub. induction sub as [|[[j|s] v] sub IH]; [done|done|].
    simpl in *. by apply IH. }
  rewrite Hnone, bool_decide_false by (by intros [? ?]). done.
Qed.
End collections.

(** A property on which the step of the patcher does nothing keeps its
    value through a call, whatever the other keys do. *)
Lemma run_update_keeps `{!StateHost} (state : State) (changes : record)
    name v :
  (∀ w, getattr (live w) name = Some v →
        patch_property changes name w = (Ret tt, w)) →
  getattr state name = Some v →
  getattr (live (run_update state changes).2) name = Some v ∧
  Forall (λ e, ev_name e ≠ name) (log (run_update state changes).2).
Proof.
  intros Hstep Hv. rewrite run_update_order.
  pose (P := λ w w' : world,
    getattr (live w) name = Some v →
    getattr (live w') name = Some v ∧
    ∃ evs, log w' = log w ++ evs ∧ Forall (λ e, ev_name e ≠ name) evs).
  assert (HP : P (World state [])
                 (for_ (patch_order state changes) (patch_property changes)
                       (World state [])).2).
  { apply for_preserves.
    - intros w Hw. split; [done|]. exists []. by rewrite app_nil_r.
    - intros w1 w2 w3 H12 H23 Hw1.
      destruct (H12 Hw1) as (Hw2 & e1 & Hl1 & He1).
      destruct (H23 Hw2) as (Hw3 & e2 & Hl2 & He2).
      split; [done|]. exists (e1 ++ e2).
      split; [by rewrite Hl2, Hl1, app_assoc|by apply Forall_app].
    - intros n w _ Hw. destruct (decide (n = name)) as [->|Hne].
      + rewrite (Hstep w Hw). split; [done|].
        exists []. by rewrite app_nil_r.
      + destruct (patch_property_touches changes n w)
          as [_ Hframe (evs & Hlog & Hevs)].
        split.
        * unfold getattr. rewrite Hframe; [done|].
          by intros ->%list_elem_of_singleton.
        * exists evs. split; [done|]. eapply Forall_impl; [done|]. simpl.
          by intros e ->%list_elem_of_singleton. }
  destruct (HP Hv) as (? & evs & Hlog & ?). simpl in Hlog.
  by rewrite Hlog.
Qed.

(** X3. Whatever the record and whatever the outcome of the call, a
    property that holds a [CallbackList] holds a [CallbackList] of the same
    length afterwards: the patcher never replaces, extends or shortens
    one. *)
Theorem collection_length_kept `{!StateHost} (state : State)
    (changes : record) (name : string) (items : list value) :
  getattr state name = Some (VCallbackList items) →
  ∃ items', getattr (live (run_update state changes).2) name
            = Some (VCallbackList items') ∧
            length items' = length items.
Proof.
  intros Hget. rewrite run_update_order.
  by apply (for_patch_keeps changes (patch_order state changes)
              (World state [])).
Qed.

(** X4. For a recognized property that holds a non-empty [CallbackList],
    a value of the record that is None, a bool, an int or a string (the
    marker included) makes the call raise: [i in changes[name]] is not
    defined for it. On the record with that key alone the call raises
    TypeError before anything is changed. *)
Theorem collection_patch_scalar_raises `{!StateHost} (state : State)
    (changes : record) (name : string) (items : list value) (v : value) :
  is_callback_property state name = true →
  getattr state name = Some (VCallbackList items) → items ≠ [] →
  record_get changes name = Some v → json_scalar v = true →
  (∃ e, (run_update state changes).1 = Raise e) ∧
  run_update state [(name, v)] = (Raise TypeError, World state []).
Proof.
  intros Hcb Hitems Hne Hv Hcont. split.
  - rewrite run_update_order.
    assert (Hin : name ∈ patch_order state changes).
    { apply patch_order_elem_of. eauto using record_get_elem_of. }
    apply list_elem_of_split in Hin as (l1 & l2 & ->).
    rewrite for_app.
    pose proof (for_patch_keeps changes l1 (World state []) name items Hitems)
      as (items1 & Hget1 & Hlen1).
    destruct (for_ l1 (patch_property changes) (World state []))
      as [[[]|e] w1]; [|by exists e].
    rewrite for_cons. simpl in Hget1.
    rewrite (patch_property_not_container _ _ _ items1 v); try done.
    + by exists TypeError.
    + intros ->. by destruct items.
  - rewrite run_update_order.
    assert (Horder : patch_order state [(name, v)] = [name]).
    { apply Permutation_singleton_r. rewrite patch_order_Permutation.
      simpl. rewrite filter_cons, decide_True by done. done. }
    rewrite Horder, for_cons.
    rewrite (patch_property_not_container _ _ _ items v); try done.
    simpl. by rewrite String.eqb_refl.
Qed.

(** X5. A dict whose keys are all strings, which is what a JSON object is
    once parsed, patches no item of a [CallbackList]: the positions are
    looked up as ints. The list is as it was after the call, whatever its
    outcome, and no mutating call is made on the property. *)
Theorem string_keys_patch_nothing `{!StateHost} (state : State)
    (changes : record) (name : string) (items : list value)
    (sub : list (key * value)) :
  getattr state name = Some (VCallbackList items) →
  record_get changes name = Some (VDict sub) →
  string_keyed sub = true →
  getattr (live (run_update state changes).2) name
  = Some (VCallbackList items) ∧
  Forall (λ e, ev_name e ≠ name) (log (run_update state changes).2).
Proof.
  intros Hitems Hsub Hkeys. apply run_update_keeps; [|done].
  intros w Hw. unfold patch_property, py_getattr.
  rewrite bind_run, Hw. simpl. apply for_skip.
  intros i _. by apply (patch_item_string_keyed _ _ sub).
Qed.

(** ** Failure *)

(** X6. A call that raises is not undone and not resumed. When the record
    gives None, a bool, an int or a string for a recognized property that
    holds a non-empty [CallbackList], and every other recognized key is for
    a property that does not hold a [CallbackList], the call raises
    TypeError at the step of that key. The recognized keys of higher
    priority have been applied by then and stay applied; the list and the
    properties of lower priority are as they were before the call. *)
Theorem failure_is_partial `{!StateHost} (state : State) (changes : record)
    (name : string) (items : list value) (v : value) :
  NoDup changes.*1 →
  is_callback_property state name = true →
  getattr state name = Some (VCallbackList items) → items ≠ [] →
  record_get changes name = Some v → json_scalar v = true →
  (∀ m, m ∈ changes.*1 → m ≠ name → is_callback_property state m = true →
        ∃ cur, getattr state m = Some cur ∧ is_CallbackList cur = false) →
  ∃ w, run_update state changes = (Raise TypeError, w) ∧
       getattr (live w) name = Some (VCallbackList items) ∧
       (∀ m, _update_priority state m < _update_priority state name →
             getattr (live w) m = getattr state m) ∧
       (∀ m mv,
          is_callback_property state m = true →
          _update_priority state name < _update_priority state m →
          record_get changes m = Some mv → mv ≠ VStr MAGIC_IGNORE →
          getattr (live w) m = Some mv).
Proof.
  intros Hnd Hcb Hitems Hne Hv Hscalar Hothers. rewrite run_update_order.
  pose proof (patch_order_NoDup state changes Hnd) as Hnd'.
  pose proof (patch_order_sorted state changes) as Hsorted.
  assert (Hin : ∀ m, m ∈ patch_order state changes ↔
                     m ∈ changes.*1 ∧ is_callback_property state m = true)
    by apply patch_order_elem_of.
  assert (Hname : name ∈ patch_order state changes).
  { apply Hin. eauto using record_get_elem_of. }
  apply list_elem_of_split in Hname as (l1 & l2 & Hsplit).
  rewrite Hsplit in Hnd', Hsorted, Hin. rewrite Hsplit.
  apply NoDup_app in Hnd' as (Hnd1 & Hl1 & _).
  apply StronglySorted_app in Hsorted as (Hcross & _ & Hs2).
  apply StronglySorted_cons in Hs2 as [Hafter _].
  assert (Hfresh : name ∉ l1).
  { intros Hn. eapply Hl1; [done|left]. }
  assert (Hbefore : ∀ n, n ∈ l1 →
            is_Some (record_get changes n) ∧
            ∃ cur, getattr state n = Some cur ∧ is_CallbackList cur = false).
  { intros n Hn. destruct (proj1 (Hin n)) as [Hkey Hncb].
    { apply elem_of_app. by left. }
    split; [by apply record_get_is_Some|].
    apply Hothers; [done| |done]. by intros ->. }
  destruct (for_ l1 (patch_property changes) (World state []))
    as [out1 w1] eqn:Hrun1.
  assert (Hret1 : out1 = Ret tt).
  { pose proof (for_scalar_steps changes l1 (World state []) Hnd1 Hbefore)
      as Hsteps.
    rewrite Hrun1 in Hsteps. by injection Hsteps. }
  subst out1.
  pose proof (for_patch_touches changes l1 (World state [])) as [_ Hf1 _].
  rewrite Hrun1 in Hf1. simpl in Hf1.
  assert (Hlist : getattr (live w1) name = Some (VCallbackList items)).
  { unfold getattr in *. by rewrite Hf1. }
  exists w1. split_and!.
  - rewrite for_app, Hrun1, for_cons.
    by rewrite (patch_property_not_container _ _ _ items v).
  - done.
  - intros m Hlow. unfold getattr. rewrite Hf1; [done|].
    intros Hm. assert (Hhigh := Hcross m name Hm (list_elem_of_here _ _)).
    unfold higher_first in Hhigh. lia.
  - intros m mv Hmcb Hhigh Hmv Hmarker.
    assert (Hm : m ∈ l1).
    { assert (Hmin : m ∈ l1 ++ name :: l2).
      { apply Hin. eauto using record_get_elem_of. }
      apply elem_of_app in Hmin as [?|[->|Hm2]%elem_of_cons]; [done|lia|].
      rewrite Forall_forall in Hafter. specialize (Hafter m Hm2).
      unfold higher_first in Hafter. lia. }
    destruct (Hbefore m Hm) as (_ & c & Hc & Hkind).
    destruct (for_visit changes l1 m _ _ Hnd1 Hm Hrun1)
      as (wa & wb & Hma & _ & Hstepm & Hmb).
    assert (Hca : getattr (live wa) m = Some c).
    { unfold getattr in *. by rewrite Hma. }
    rewrite (patch_property_scalar _ _ _ _ _ Hca Hkind Hmv) in Hstepm.
    rewrite py_ne_str_true in Hstepm by done. injection Hstepm as <-.
    unfold getattr in *. rewrite Hmb. apply getattr_store_eq.
Qed.

(** ** Patch, then serialize or patch again *)

(** X7. What is patched is what is serialized next: after a call that
    returns, [state_to_dict] of the patched state has, under a recognized
    key that does not start with an underscore and whose property does not
    hold a [CallbackList], the value of the record (unless that value is
    the marker or a [CallbackList]). *)
Theorem patch_then_serialize `{!StateHost} (state : State) (changes : record)
    (name : string) (cur v : value) (w : world) :
  NoDup changes.*1 →
  is_callback_property state name = true →
  startswith_underscore name = false →
  getattr state name = Some cur → is_CallbackList cur = false →
  record_get changes name = Some v → v ≠ VStr MAGIC_IGNORE →
  is_CallbackList v = false →
  run_update state changes = (Ret tt, w) →
  record_get (state_to_dict (live w)) name = Some v.
Proof.
  unfold is_callback_property, getattr.
  intros Hnd Hcb Hu Hcur Hscalar Hv Hmarker Hkind Hrun.
  destruct (lookup_attr name state) as [a|] eqn:Ha; [|done].
  injection Hcur as <-.
  pose proof (run_scalar_lookup state changes name a v w
                Hnd Ha Hcb Hscalar Hv Hmarker Hrun) as Hrow.
  rewrite (state_to_dict_get _ _ _ Hrow Hu Hcb). simpl. by destruct v.
Qed.

Lemma store_attr_same name v state :
  getattr state name = Some v → store_attr name v state = state.
Proof.
  unfold getattr. induction state as [|a rest IH]; [done|]. simpl.
  destruct (String.eqb_spec (a_name a) name) as [Heq|Hne]; simpl.
  - intros [= <-]. by destruct a.
  - intros. by rewrite IH.
Qed.

Lemma group_step_class s s' groups name :
  class_of s = class_of s' → group_step s groups name = group_step s' groups name.
Proof.
  intros Hc. unfold group_step.
  by rewrite (class_of_is_callback_property _ _ _ Hc),
             (class_of_update_priority _ _ _ Hc).
Qed.

Lemma patch_order_class s s' (changes : record) :
  class_of s = class_of s' → patch_order s changes = patch_order s' changes.
Proof.
  intros Hc. unfold patch_order, collect_groups.
  assert (Hfold : ∀ names groups,
            foldl (group_step s) groups names
            = foldl (group_step s') groups names).
  { induction names as [|n names IH]; intros groups; [done|]. simpl.
    by rewrite (group_step_class _ _ _ _ Hc), IH. }
  by rewrite Hfold.
Qed.

Lemma getattr_foldl_scalar_store_ne (changes : record) names state m :
  m ∉ names →
  getattr (foldl (scalar_store changes) state names) m = getattr state m.
Proof.
  revert state. induction names as [|n names IH]; intros state; [done|].
  intros [Hne Hm]%not_elem_of_cons. simpl.
  by rewrite IH, getattr_scalar_store_ne.
Qed.

Lemma getattr_foldl_scalar_store (changes : record) names state n v :
  NoDup names → n ∈ names →
  record_get changes n = Some v → v ≠ VStr MAGIC_IGNORE →
  getattr (foldl (scalar_store changes) state names) n = Some v.
Proof.
  intros Hnd. revert state.
  induction Hnd as [|m names Hm Hnd IH]; intros state;
    [by intros ?%elem_of_nil|].
  intros [->|Hn]%elem_of_cons Hv Hmarker; simpl.
  - rewrite getattr_foldl_scalar_store_ne by done.
    unfold scalar_store. rewrite Hv, py_ne_str_true by done.
    apply getattr_store_eq.
  - by apply IH.
Qed.

Lemma foldl_scalar_store_fixed (changes : record) names state :
  (∀ n, n ∈ names → scalar_store changes state n = state) →
  foldl (scalar_store changes) state names = state.
Proof.
  induction names as [|n names IH]; intros Hfix; [done|]. simpl.
  rewrite Hfix by left. apply IH. intros. apply Hfix. by right.
Qed.

(** X8. Sending the same record again changes nothing: when no recognized
    key is for a property that holds a [CallbackList] and no value of the
    record is a [CallbackList], a second call on the patched state returns,
    leaves the state as the first call left it and makes the same calls. *)
Theorem scalar_patch_idempotent `{!StateHost} (state : State)
    (changes : record) :
  NoDup changes.*1 →
  scalar_patch state changes →
  (∀ name v, record_get changes name = Some v → is_CallbackList v = false) →
  run_update (live (run_update state changes).2) changes
  = (Ret tt, World (live (run_update state changes).2)
                   (log (run_update state changes).2)).
Proof.
  intros Hnd Hscalar Hvalues.
  pose proof (update_state_from_dict_touches changes (World state []))
    as [Hclass _ _].
  fold (run_update state changes) in Hclass.
  assert (Hfirst : run_update state changes
    = (Ret tt,
       World (foldl (scalar_store changes) state (patch_order state changes))
             (omap (scalar_event changes) (patch_order state changes)))).
  { rewrite run_update_order, for_scalar_steps; [done| |].
    - by apply patch_order_NoDup.
    - intros n [Hn Hcb]%patch_order_elem_of.
      split; [by apply record_get_is_Some|by apply Hscalar]. }
  rewrite Hfirst in *. simpl in *.
  set (order := patch_order state changes) in *.
  set (patched := foldl (scalar_store changes) state order) in *.
  assert (Hnd' : NoDup order) by by apply patch_order_NoDup.
  assert (Hvalue : ∀ n, n ∈ order →
            ∃ c, getattr patched n = Some c ∧ is_CallbackList c = false ∧
                 scalar_store changes patched n = patched).
  { intros n Hn. pose proof Hn as [Hkey Hcb]%patch_order_elem_of.
    destruct (record_get_is_Some changes n Hkey) as [v Hv].
    destruct (Hscalar n Hkey Hcb) as (c & Hc & Hkind).
    unfold scalar_store. rewrite Hv.
    destruct (py_ne_str v MAGIC_IGNORE) eqn:Hne.
    - assert (Hget : getattr patched n = Some v).
      { apply getattr_foldl_scalar_store; try done.
        intros ->. by vm_compute in Hne. }
      exists v. split_and!; [done|by eapply Hvalues|by apply store_attr_same].
    - exists c. split_and!; [|done|done].
      assert (Hstay : ∀ names s, getattr s n = Some c →
                getattr (foldl (scalar_store changes) s names) n = Some c).
      { induction names as [|m names IH]; intros s Hs; [done|]. simpl.
        apply IH. destruct (decide (n = m)) as [<-|Hnm].
        - unfold scalar_store. by rewrite Hv, Hne.
        - by rewrite getattr_scalar_store_ne. }
      by apply Hstay. }
  rewrite run_update_order, (patch_order_class patched state) by done.
  fold order. rewrite for_scalar_steps; [|done|].
  - simpl. f_equal. f_equal. apply foldl_scalar_store_fixed.
    intros n Hn. by destruct (Hvalue n Hn) as (? & ? & ? & ?).
  - intros n Hn. pose proof Hn as [Hkey Hcb]%patch_order_elem_of.
    split; [by apply record_get_is_Some|].
    destruct (Hvalue n Hn) as (c & ? & ? & ?). by exists c.
Qed.

(** X9. What the encoder writes for a reference is not written back: a
    property that does not hold a [CallbackList] keeps its value when the
    record has, under its name, what [GlueStateJSONEncoder.default] returns
    for a reference, and no mutating call is made on it, whatever the other
    keys of the record and the outcome of the call. *)
Theorem reference_echo_ignored `{!StateHost} (state : State)
    (changes : record) (name : string) (cur encoded : value) (id : nat) :
  encoder_default (VRef id) = Ret encoded →
  record_get changes name = Some encoded →
  getattr state name = Some cur → is_CallbackList cur = false →
  getattr (live (run_update state changes).2) name = Some cur ∧
  Forall (λ e, ev_name e ≠ name) (log (run_update state changes).2).
Proof.
  intros [= <-] Hnew Hcur Hkind. by apply sentinel_inert_scalar.
Qed.

(** ** The JSON pass *)

Lemma pass_all_Ret {A B} (f : A → option (outcome B)) (l : list A) rs :
  pass_all f l = Some (Ret rs) ↔ Forall2 (λ x r, f x = Some (Ret r)) l rs.
Proof.
  revert rs. induction l as [|x l IH]; intros rs; simpl.
  - split; [by intros [= <-]; constructor|by intros ->%Forall2_nil_inv_l].
  - split.
    + destruct (f x) as [[y|e]|] eqn:Hx; simpl; try done.
      destruct (pass_all f l) as [[ys|e]|] eqn:Hl; simpl; try done.
      intros [= <-]. constructor; [done|]. by apply IH.
    + intros (y & ys & Hy & Hys & ->)%Forall2_cons_inv_l.
      rewrite Hy. simpl. apply IH in Hys. by rewrite Hys.
Qed.

Lemma pass_all_mono {A B} (f g : A → option (outcome B)) (l : list A) r :
  (∀ x y, f x = Some y → g x = Some y) →
  pass_all f l = Some r → pass_all g l = Some r.
Proof.
  intros Hfg. revert r. induction l as [|x l IH]; intros r; [done|]. simpl.
  destruct (f x) as [[y|e]|] eqn:Hx; simpl; try done;
    rewrite (Hfg _ _ Hx); simpl; [|done].
  destruct (pass_all f l) as [[ys|e]|]; simpl; try done;
    by rewrite (IH _ eq_refl).
Qed.

Lemma json_loads_dumps_mono (fuel fuel' : nat) o r :
  (fuel ≤ fuel')%nat →
  json_loads_dumps fuel o = Some r → json_loads_dumps fuel' o = Some r.
Proof.
  revert fuel' o r. induction fuel as [|fuel IH]; intros fuel' o r; [done|].
  destruct fuel' as [|fuel']; [lia|]. intros Hle.
  assert (Hrec : ∀ x y, json_loads_dumps fuel x = Some y →
                        json_loads_dumps fuel' x = Some y).
  { intros x y. apply IH. lia. }
  destruct o; simpl; try done.
  - apply Hrec.
  - apply Hrec.
  - destruct (pass_all (json_loads_dumps fuel) l) as [x|] eqn:Hl; [|done].
    by rewrite (pass_all_mono _ _ _ _ Hrec Hl).
  - destruct (pass_all _ d) as [x|] eqn:Hd; [|done].
    erewrite pass_all_mono; [done| |exact Hd].
    intros kv y. simpl.
    destruct (json_loads_dumps fuel kv.2) as [z|] eqn:Hkv; [|done].
    by rewrite (Hrec _ _ Hkv).
  - destruct (pass_all (json_loads_dumps fuel) items) as [x|] eqn:Hl;
      [|done].
    by rewrite (pass_all_mono _ _ _ _ Hrec Hl).
  - apply Hrec.
Qed.

Lemma json_of_det o r r' : json_of o r → json_of o r' → r = r'.
Proof.
  intros [f1 H1] [f2 H2].
  apply (json_loads_dumps_mono _ (f1 `max` f2)) in H1; [|lia].
  apply (json_loads_dumps_mono _ (f1 `max` f2)) in H2; [|lia].
  congruence.
Qed.

(** *** Enough fuel *)

Lemma list_sum_elem_of {A} (f : A → nat) (x : A) (l : list A) :
  x ∈ l → (f x ≤ list_sum (map f l))%nat.
Proof.
  induction 1 as [|y z l Hx IH]; simpl; lia.
Qed.

Lemma list_sum_le {A B} (f : A → nat) (g : B → nat) (l : list A)
    (k : list B) :
  Forall2 (λ x y, f x ≤ g y)%nat l k →
  (list_sum (map f l) ≤ list_sum (map g k))%nat.
Proof.
  induction 1; simpl; lia.
Qed.

Lemma weight_pos v : (1 ≤ weight v)%nat.
Proof. destruct v; simpl; lia. Qed.

Lemma weight_ind (P : value → Prop) :
  (∀ v, (∀ u, (weight u < weight v)%nat → P u) → P v) → ∀ v, P v.
Proof.
  intros Hstep v. remember (weight v) as n eqn:Hn. revert v Hn.
  induction (lt_wf n) as [n _ IH]. intros v ->.
  apply Hstep. intros u Hu. by apply (IH (weight u)).
Qed.

Lemma weight_dict_of_enumerate_from (l : list value) (start : nat) :
  list_sum (map (λ kv : key * value, S (weight kv.2))
                (map (λ iv : nat * value, (KInt (Z.of_nat iv.1), iv.2))
                     (enumerate_from start l)))
  = list_sum (map (λ x, S (weight x)) l).
Proof.
  revert start. induction l as [|x l IH]; intros start; [done|].
  simpl. by rewrite IH.
Qed.

Lemma weight_serialize_property (recurse : value → value) v :
  (∀ items, v = VCallbackList items →
            Forall (λ x, weight (recurse x) ≤ weight x)%nat items) →
  (weight (serialize_property recurse v) ≤ weight v)%nat.
Proof.
  intros Hitems. destruct v; simpl; try lia.
  unfold dict_of_enumerate, enumerate.
  rewrite weight_dict_of_enumerate_from.
  specialize (Hitems items eq_refl).
  induction Hitems; simpl in *; lia.
Qed.

Lemma weight_state_to_dict_loop (recurse : value → value) (s : State) :
  Forall (λ a, weight (serialize_property recurse (a_value a))
               ≤ weight (a_value a))%nat s →
  (list_sum (map (λ kv : key * value, S (weight kv.2))
                 (dict_of_record (state_to_dict_loop recurse s)))
   ≤ list_sum (map (λ a, S (weight (a_value a))) s))%nat.
Proof.
  induction 1 as [|[name cb prio item] s Ha Hs IH]; [done|]. simpl in *.
  destruct (negb (startswith_underscore name) && cb); simpl; lia.
Qed.

Lemma weight_serialize_item v : (weight (serialize_item v) ≤ weight v)%nat.
Proof.
  induction v as [v IH] using weight_ind.
  destruct v as [| | | | | | | | |s]; try done.
  rewrite serialize_item_State. unfold state_to_dict.
  change (weight (VState s))
    with (S (S (list_sum (map (λ a, S (weight (a_value a))) s)))) in *.
  change (weight (VDict ?d))
    with (S (list_sum (map (λ kv : key * value, S (weight kv.2)) d))).
  enough (list_sum (map (λ kv : key * value, S (weight kv.2))
                     (dict_of_record (state_to_dict_loop serialize_item s)))
          ≤ list_sum (map (λ a, S (weight (a_value a))) s))%nat by lia.
  apply weight_state_to_dict_loop, Forall_forall. intros a Ha.
  pose proof (list_sum_elem_of (λ a, S (weight (a_value a))) a s Ha) as Hle.
  simpl in Hle.
  apply weight_serialize_property. intros items Hitems.
  apply Forall_forall. intros x Hx. apply IH.
  pose proof (list_sum_elem_of (λ x, S (weight x)) x items Hx) as Hx'.
  rewrite Hitems in Hle. simpl in *. lia.
Qed.

Lemma weight_state_snapshot (s : State) :
  (weight (VDict (dict_of_record (state_to_dict s))) < weight (VState s))%nat.
Proof.
  change (weight (VState s))
    with (S (S (list_sum (map (λ a, S (weight (a_value a))) s)))).
  change (weight (VDict ?d))
    with (S (list_sum (map (λ kv : key * value, S (weight kv.2)) d))).
  enough (list_sum (map (λ kv : key * value, S (weight kv.2))
                     (dict_of_record (state_to_dict s)))
          ≤ list_sum (map (λ a, S (weight (a_value a))) s))%nat by lia.
  apply weight_state_to_dict_loop, Forall_forall. intros a _.
  apply weight_serialize_property. intros items _.
  apply Forall_forall. intros x _. apply weight_serialize_item.
Qed.

Lemma pass_all_total {A B} (f : A → option (outcome B)) (l : list A) :
  (∀ x, x ∈ l → ∃ r, f x = Some (Ret r)) →
  ∃ rs, pass_all f l = Some (Ret rs).
Proof.
  induction l as [|x l IH]; intros Hf; [by exists []|].
  destruct (Hf x) as [y Hy]; [left|].
  destruct IH as [ys Hys]; [intros; apply Hf; by right|].
  exists (y :: ys). simpl. by rewrite Hy; simpl; rewrite Hys.
Qed.

(** With [weight o] as fuel the pass returns; on the values of the model it
    never raises. *)
Lemma json_loads_dumps_total (fuel : nat) o :
  (weight o ≤ fuel)%nat → ∃ r, json_loads_dumps fuel o = Some (Ret r).
Proof.
  revert o. induction fuel as [|fuel IH]; intros o Hw.
  { pose proof (weight_pos o). lia. }
  assert (Hlist : ∀ l : list value,
            (S (list_sum (map (λ x, S (weight x)) l)) ≤ S fuel)%nat →
            ∃ rs, pass_all (json_loads_dumps fuel) l = Some (Ret rs)).
  { intros l Hl. apply pass_all_total. intros x Hx. apply IH.
    pose proof (list_sum_elem_of (λ x, S (weight x)) x l Hx). simpl in *.
    lia. }
  destruct o as [| | | |id|name|l|d|items|s]; simpl in *.
  - by eexists.
  - by eexists.
  - by eexists.
  - by eexists.
  - apply IH. simpl. lia.
  - apply IH. simpl. lia.
  - destruct (Hlist l Hw) as [rs ->]. by eexists.
  - destruct (pass_all_total
                (λ kv : key * value,
                   pass_bind (json_loads_dumps fuel kv.2)
                             (λ v, Some (Ret (key_str kv.1, v)))) d)
      as [members ->]; [|by eexists].
    intros kv Hkv. destruct (IH kv.2) as [r ->]; [|by eexists].
    pose proof (list_sum_elem_of (λ kv : key * value, S (weight kv.2))
                  kv d Hkv). simpl in *. lia.
  - destruct (Hlist items Hw) as [rs ->]. by eexists.
  - apply IH. pose proof (weight_state_snapshot s) as Hlt.
    change (weight (VState s))
      with (S (S (list_sum (map (λ a, S (weight (a_value a))) s)))) in Hlt.
    lia.
Qed.

Lemma json_of_total o : ∃ r, json_of o r.
Proof.
  destruct (json_loads_dumps_total (weight o) o) as [r Hr]; [done|].
  exists r. by exists (weight o).
Qed.

Lemma json_of_fuel o r (fuel : nat) :
  json_of o r → (weight o ≤ fuel)%nat →
  json_loads_dumps fuel o = Some (Ret r).
Proof.
  intros Hr Hfuel. destruct (json_loads_dumps_total fuel o Hfuel) as [r' Hr'].
  by rewrite (json_of_det o r r' Hr (ex_intro _ fuel Hr')).
Qed.

(** *** Objects *)

Lemma key_eqb_eq k1 k2 : key_eqb k1 k2 = true ↔ k1 = k2.
Proof.
  destruct k1 as [i|s], k2 as [j|t]; simpl; try (split; done).
  - rewrite Z.eqb_eq. split; congruence.
  - rewrite String.eqb_eq. split; congruence.
Qed.

Lemma dict_put_fresh d k v : k ∉ d.*1 → dict_put d k v = d ++ [(k, v)].
Proof.
  induction d as [|[k' v'] d IH]; [done|]. simpl.
  intros [Hne Hk]%not_elem_of_cons.
  destruct (key_eqb k' k) eqn:Heq.
  - apply key_eqb_eq in Heq. congruence.
  - by rewrite IH.
Qed.

Lemma dict_put_keys d k v :
  (dict_put d k v).*1 = if decide (k ∈ d.*1) then d.*1 else d.*1 ++ [k].
Proof.
  induction d as [|[k' v'] d IH].
  - case_decide as Hin; [by apply elem_of_nil in Hin|done].
  - rewrite fmap_cons. cbn [dict_put fst].
    destruct (key_eqb k' k) eqn:Heq.
    + apply key_eqb_eq in Heq as ->. by rewrite decide_True by left.
    + assert (k' ≠ k) by (intros ->; by rewrite (proj2 (key_eqb_eq k k)) in Heq).
      rewrite fmap_cons, IH. cbn [fst].
      destruct (decide (k ∈ d.*1)).
      * by rewrite decide_True by by right.
      * rewrite decide_False; [done|].
        intros [?|?]%elem_of_cons; congruence.
Qed.

Lemma dict_put_values (P : key * value → Prop) d k v :
  Forall P d → P (k, v) → (∀ k' v', P (k', v') → k' = k → P (k', v)) →
  Forall P (dict_put d k v).
Proof.
  intros Hd Hkv Hrepl. induction Hd as [|[k' v'] d Hx Hd IH]; simpl.
  - by constructor.
  - destruct (key_eqb k' k) eqn:Heq.
    + apply key_eqb_eq in Heq. constructor; [|done]. by eapply Hrepl.
    + by constructor.
Qed.

Lemma json_object_fresh (members : list (string * value)) acc :
  NoDup members.*1 →
  (∀ m, m ∈ members → KStr m.1 ∉ acc.*1) →
  foldl (λ d m, dict_put d (KStr m.1) m.2) acc members
  = acc ++ dict_of_record members.
Proof.
  revert acc. induction members as [|[n v] members IH]; intros acc.
  - by rewrite app_nil_r.
  - rewrite fmap_cons, NoDup_cons. simpl. intros [Hn Hnd] Hacc.
    rewrite dict_put_fresh by (apply (Hacc (n, v)); left).
    rewrite IH, <-app_assoc; [done|done|].
    intros m Hm. rewrite fmap_app, elem_of_app. intros [Hin|Hin].
    + by apply (Hacc m); [right|].
    + apply list_elem_of_singleton in Hin. injection Hin as Hmn.
      apply Hn. rewrite <-Hmn. by apply list_elem_of_fmap_2.
Qed.

Lemma json_object_NoDup (members : list (string * value)) :
  NoDup members.*1 → json_object members = dict_of_record members.
Proof.
  intros Hnd. unfold json_object. rewrite json_object_fresh; [done|done|].
  intros m _. apply not_elem_of_nil.
Qed.

Lemma json_native_dict d : json_native (VDict d) = true ↔ dict_wf d.
Proof.
  unfold dict_wf. simpl.
  rewrite andb_true_iff, bool_decide_eq_true, forallb_forall, Forall_forall.
  split; intros [Hall Hnd]; (split; [|done]); intros [k v] Hkv.
  - apply list_elem_of_In, Hall in Hkv. simpl in *.
    apply andb_true_iff in Hkv as [Hk Hv]. split; [|done].
    destruct k; [done|by eexists].
  - apply list_elem_of_In, Hall in Hkv as [[s Hs] Hv]. simpl in *.
    by rewrite Hs, Hv.
Qed.

Lemma json_object_wf (members : list (string * value)) :
  Forall (λ m, json_native m.2 = true) members →
  dict_wf (json_object members).
Proof.
  unfold json_object. intros Hall.
  assert (Hacc : dict_wf []) by (split; constructor).
  revert Hacc. generalize (@nil (key * value)) as acc.
  induction Hall as [|[n v] members Hv Hall IH]; intros acc Hacc; [done|].
  simpl. apply IH. destruct Hacc as [Hvals Hnd]. split.
  - apply dict_put_values; [done|split; [by eexists|done]|].
    intros k' v' [Hk _] ->. split; [by eexists|done].
  - rewrite dict_put_keys. case_decide; [done|].
    apply NoDup_app. split_and!; [done| |apply NoDup_singleton].
    by intros x Hx ->%list_elem_of_singleton.
Qed.

Lemma string_keyed_wf d : dict_wf d → string_keyed d = true.
Proof.
  intros [Hall _]. unfold string_keyed. apply forallb_forall.
  intros [k v] Hkv%list_elem_of_In. rewrite Forall_forall in Hall.
  destruct (Hall _ Hkv) as [[s Hs] _]. simpl in *. by rewrite Hs.
Qed.

(** *** What the pass returns *)

Lemma json_loads_dumps_native (fuel : nat) o r :
  json_loads_dumps fuel o = Some (Ret r) → json_native r = true.
Proof.
  revert o r. induction fuel as [|fuel IH]; intros o r; [done|].
  assert (Hlist : ∀ (l rs : list value),
            pass_all (json_loads_dumps fuel) l = Some (Ret rs) →
            forallb json_native rs = true).
  { intros l rs Hl%pass_all_Ret. apply forallb_forall.
    intros x Hx%list_elem_of_In.
    apply list_elem_of_lookup in Hx as [i Hi].
    destruct (Forall2_lookup_r _ _ _ _ _ Hl Hi) as (y & _ & Hy).
    by eapply IH. }
  destruct o as [| | | |id|name|l|d|items|s]; simpl.
  - by intros [= <-].
  - by intros [= <-].
  - by intros [= <-].
  - by intros [= <-].
  - apply IH.
  - apply IH.
  - destruct (pass_all (json_loads_dumps fuel) l) as [[rs|e]|] eqn:Hl;
      try done.
    simpl. intros [= <-]. by eapply Hlist.
  - destruct (pass_all _ d) as [[members|e]|] eqn:Hd; try done.
    simpl. intros [= <-]. apply json_native_dict, json_object_wf.
    apply pass_all_Ret in Hd. apply Forall_forall. intros m Hm.
    apply list_elem_of_lookup in Hm as [i Hi].
    destruct (Forall2_lookup_r _ _ _ _ _ Hd Hi) as (kv & _ & Hkv).
    simpl in Hkv.
    destruct (json_loads_dumps fuel kv.2) as [[v|e]|] eqn:Hv; try done.
    simpl in Hkv. injection Hkv as <-. by eapply IH.
  - destruct (pass_all (json_loads_dumps fuel) items) as [[rs|e]|] eqn:Hl;
      try done.
    simpl. intros [= <-]. by eapply Hlist.
  - apply IH.
Qed.

Lemma json_loads_dumps_fixed (fuel : nat) v :
  json_native v = true → (weight v ≤ fuel)%nat →
  json_loads_dumps fuel v = Some (Ret v).
Proof.
  revert v. induction fuel as [|fuel IH]; intros v Hv Hw.
  { pose proof (weight_pos v). lia. }
  destruct v as [| | | |id|name|l|d|items|s]; try done.
  - simpl in *.
    assert (Hl : pass_all (json_loads_dumps fuel) l = Some (Ret l)).
    { apply pass_all_Ret, Forall2_same_length_lookup_2; [done|].
      intros i x y Hx Hy. rewrite Hx in Hy. injection Hy as <-.
      apply list_elem_of_lookup_2 in Hx. apply IH.
      - rewrite forallb_forall in Hv. by apply Hv, list_elem_of_In.
      - pose proof (list_sum_elem_of (λ x, S (weight x)) x l Hx).
        simpl in *. lia. }
    by rewrite Hl.
  - apply json_native_dict in Hv as [Hall Hnd]. simpl in Hw. simpl.
    assert (Hd : pass_all
                   (λ kv : key * value,
                      pass_bind (json_loads_dumps fuel kv.2)
                                (λ v, Some (Ret (key_str kv.1, v)))) d
                 = Some (Ret ((λ kv : key * value, (key_str kv.1, kv.2)) <$> d))).
    { apply pass_all_Ret, Forall2_fmap_r, Forall_Forall2_diag, Forall_forall.
      intros kv Hkv. rewrite IH; [done| |].
      - rewrite Forall_forall in Hall. by apply Hall.
      - pose proof (list_sum_elem_of (λ kv : key * value, S (weight kv.2))
                      kv d Hkv). simpl in *. lia. }
    rewrite Hd. simpl. do 3 f_equal.
    assert (Hback : dict_of_record
                      ((λ kv : key * value, (key_str kv.1, kv.2)) <$> d) = d).
    { clear -Hall. induction Hall as [|[k v] d [[s Hs] _] _ IH]; [done|].
      simpl in *. subst k. f_equal. apply IH. }
    rewrite json_object_NoDup; [done|].
    rewrite <-Hback in Hnd. unfold dict_of_record in Hnd.
    rewrite <-list_fmap_compose in Hnd.
    apply (NoDup_fmap_1 KStr). by rewrite <-list_fmap_compose.
Qed.

Lemma json_of_native v : json_native v = true → json_of v v.
Proof. intros Hv. exists (weight v). by apply json_loads_dumps_fixed. Qed.

Lemma json_of_reference id r : json_of (VRef id) r → r = VStr MAGIC_IGNORE.
Proof.
  intros Hr. apply (json_of_det (VRef id)); [done|]. by exists 2%nat.
Qed.

Lemma json_of_colormap name r : json_of (VColormap name) r → r = VStr name.
Proof.
  intros Hr. apply (json_of_det (VColormap name)); [done|]. by exists 2%nat.
Qed.

Lemma json_of_state s r :
  json_of (VState s) r ↔ json_of (VDict (dict_of_record (state_to_dict s))) r.
Proof.
  split; intros [fuel Hr].
  - destruct fuel as [|fuel]; [done|]. by exists fuel.
  - by exists (S fuel).
Qed.

Lemma json_of_serialize_item v r : json_of (serialize_item v) r ↔ json_of v r.
Proof.
  destruct v; try done. rewrite serialize_item_State. symmetry.
  apply json_of_state.
Qed.

Lemma json_of_dict_inv d r :
  json_of (VDict d) r →
  ∃ members, Forall2 (λ kv m, m.1 = key_str kv.1 ∧ json_of kv.2 m.2)
                     d members ∧
             r = VDict (json_object members).
Proof.
  intros [[|fuel] Hr]; [done|]. simpl in Hr.
  destruct (pass_all _ d) as [[members|e]|] eqn:Hd; try done.
  simpl in Hr. injection Hr as <-. exists members. split; [|done].
  apply pass_all_Ret in Hd. eapply Forall2_impl; [exact Hd|].
  intros kv m. simpl.
  destruct (json_loads_dumps fuel kv.2) as [[v|e]|] eqn:Hv; try done.
  simpl. intros [= <-]. split; [done|]. by exists fuel.
Qed.

Lemma convert_state_to_json_of (s : State) r :
  convert_state_to_json (Some s) = Some (Ret r) ↔
  json_of (VDict (dict_of_record (state_to_dict s))) r.
Proof.
  split.
  - intros Hr. by eexists.
  - intros Hr. by apply json_of_fuel.
Qed.

(** ** Snapshots *)

Lemma record_of_dict_of_record (snap : record) :
  record_of_dict (dict_of_record snap) = Some snap.
Proof.
  induction snap as [|[n v] snap IH]; [done|]. simpl in *. by rewrite IH.
Qed.

Lemma dict_get_dict_of_record (snap : record) name :
  dict_get (dict_of_record snap) (KStr name) = record_get snap name.
Proof.
  induction snap as [|[n v] snap IH]; [done|]. simpl in *. by rewrite IH.
Qed.

Lemma state_to_dict_NoDup (s : State) :
  NoDup (dir s) → NoDup (state_to_dict s).*1.
Proof.
  intros Hnd. rewrite state_to_dict_keys_NoDup by done. by apply NoDup_filter.
Qed.

(** The snapshot of a state, member by member. *)
Lemma snapshot_members (s : State) r :
  NoDup (dir s) →
  json_of (VDict (dict_of_record (state_to_dict s))) r →
  ∃ snap : record,
    r = VDict (dict_of_record snap) ∧
    Forall2 (λ kv m, m.1 = kv.1 ∧ json_of kv.2 m.2) (state_to_dict s) snap.
Proof.
  intros Hnd (members & Hmembers & ->)%json_of_dict_inv.
  unfold dict_of_record at 1 in Hmembers. apply Forall2_fmap_l in Hmembers.
  exists members. split; [|done].
  rewrite json_object_NoDup; [done|].
  assert (Hkeys : members.*1 = (state_to_dict s).*1).
  { clear -Hmembers. induction Hmembers as [|kv m l k [Hk _] _ IH]; [done|].
    rewrite !fmap_cons. simpl in Hk. by rewrite Hk, IH. }
  rewrite Hkeys. by apply state_to_dict_NoDup.
Qed.

Lemma snapshot_keys (st snap : record) :
  Forall2 (λ kv m, m.1 = kv.1 ∧ json_of kv.2 m.2) st snap →
  snap.*1 = st.*1.
Proof.
  induction 1 as [|kv m st snap [Hk _] _ IH]; [done|].
  rewrite !fmap_cons. by rewrite Hk, IH.
Qed.

Lemma snapshot_record_get (st snap : record) name val :
  Forall2 (λ kv m, m.1 = kv.1 ∧ json_of kv.2 m.2) st snap →
  record_get st name = Some val →
  ∃ rv, record_get snap name = Some rv ∧ json_of val rv.
Proof.
  induction 1 as [|[k v] [k' v'] st snap [Hk Hv] _ IH]; [done|].
  simpl in *. subst k'. destruct (String.eqb k name); [|done].
  intros [= <-]. by exists v'.
Qed.

Lemma snapshot_exists (s : State) :
  NoDup (dir s) →
  ∃ snap : record,
    convert_state_to_json (Some s) = Some (Ret (VDict (dict_of_record snap)))
    ∧ Forall2 (λ kv m, m.1 = kv.1 ∧ json_of kv.2 m.2) (state_to_dict s) snap.
Proof.
  intros Hnd.
  destruct (json_of_total (VDict (dict_of_record (state_to_dict s))))
    as [r Hr].
  destruct (snapshot_members s r Hnd Hr) as (snap & -> & Hsnap).
  exists snap. split; [|done]. by apply convert_state_to_json_of.
Qed.

(** X10. What [convert_state_to_json] returns is JSON: an object whose
    names are strings, each once, and whose values are None, bools, ints,
    strings, lists and such objects. No state, reference, colormap or
    [CallbackList] is left in it. *)
Theorem snapshot_is_json (state : option State) :
  ∃ d, convert_state_to_json state = Some (Ret (VDict d)) ∧
       json_native (VDict d) = true.
Proof.
  destruct state as [s|]; [|by exists []].
  destruct (json_of_total (VDict (dict_of_record (state_to_dict s))))
    as [r Hr].
  pose proof Hr as (members & _ & ->)%json_of_dict_inv.
  exists (json_object members). split.
  - by apply convert_state_to_json_of.
  - destruct Hr as [fuel Hr]. by eapply json_loads_dumps_native.
Qed.

(** X11. The JSON pass does nothing more the second time: what it returns
    for any value is returned as it is when it is passed again. *)
Theorem json_pass_idempotent (o r : value) :
  json_of o r → json_of r r.
Proof.
  intros [fuel Hr]. apply json_of_native. by eapply json_loads_dumps_native.
Qed.

(** X12. In the snapshot of a state, a serialized property that does not
    hold a [CallbackList] is found under its name as the JSON form of its
    value: the marker for a reference, the name for a colormap, the value
    itself when JSON holds it natively, and for a state held by the
    property the snapshot of that state. *)
Theorem snapshot_property (s : State) (name : string) (val : value) :
  NoDup (dir s) → serialized s name →
  getattr s name = Some val → is_CallbackList val = false →
  ∃ d r, convert_state_to_json (Some s) = Some (Ret (VDict d)) ∧
         dict_get d (KStr name) = Some r ∧ json_of val r ∧
         (∀ id, val = VRef id → r = VStr MAGIC_IGNORE) ∧
         (∀ cmap, val = VColormap cmap → r = VStr cmap) ∧
         (json_native val = true → r = val) ∧
         (∀ s', val = VState s' →
                convert_state_to_json (Some s') = Some (Ret r)).
Proof.
  intros Hnd [Hu Hcb] Hval Hkind.
  destruct (snapshot_exists s Hnd) as (snap & Hconv & Hsnap).
  unfold getattr, is_callback_property in *.
  destruct (lookup_attr name s) as [a|] eqn:Ha; [|done].
  injection Hval as <-.
  pose proof (state_to_dict_get _ _ _ Ha Hu Hcb) as Hget.
  assert (Hraw : serialize_property serialize_item (a_value a) = a_value a)
    by by destruct (a_value a).
  rewrite Hraw in Hget.
  destruct (snapshot_record_get _ _ _ _ Hsnap Hget) as (r & Hr & Hjson).
  exists (dict_of_record snap), r.
  rewrite dict_get_dict_of_record. split_and!; try done.
  - intros id Hid. rewrite Hid in Hjson. by eapply json_of_reference.
  - intros cmap Hc. rewrite Hc in Hjson. by eapply json_of_colormap.
  - intros Hnative. eapply json_of_det; [done|]. by apply json_of_native.
  - intros s' Hs'. rewrite Hs' in Hjson.
    by apply convert_state_to_json_of, json_of_state.
Qed.

Lemma dict_of_enumerate_from_index (l : list value) (start i : nat) :
  map (λ iv : nat * value, (KInt (Z.of_nat iv.1), iv.2))
      (enumerate_from start l) !! i
  = (λ x, (KInt (Z.of_nat (start + i)), x)) <$> l !! i.
Proof.
  revert start i. induction l as [|x l IH]; intros start [|i]; simpl;
    try done.
  - by rewrite Nat.add_0_r.
  - rewrite IH. by replace (S start + i)%nat with (start + S i)%nat by lia.
Qed.

Lemma record_get_lookup (members : record) (i : nat) name v :
  NoDup members.*1 → members !! i = Some (name, v) →
  record_get members name = Some v.
Proof.
  revert i. induction members as [|[k x] members IH]; intros i; [done|].
  rewrite fmap_cons, NoDup_cons. simpl. intros [Hk Hnd].
  destruct i as [|i]; simpl.
  - intros [= -> ->]. by rewrite String.eqb_refl.
  - intros Hi. destruct (String.eqb_spec k name) as [->|]; [|by eapply IH].
    destruct Hk. apply list_elem_of_lookup_2 in Hi.
    by apply (list_elem_of_fmap_2 fst) in Hi.
Qed.

Lemma position_names_NoDup (n : nat) :
  NoDup ((λ i : nat, pretty (Z.of_nat i)) <$> seq 0 n).
Proof.
  apply NoDup_fmap_2; [|apply NoDup_seq].
  intros i j Hij. apply (inj pretty) in Hij. lia.
Qed.

(** X13. In the snapshot of a state, a serialized property that holds a
    [CallbackList] is an object whose names are the positions written as
    decimal strings, "0", "1", ..., in order, and whose value under the
    name of position [i] is the JSON form of item [i]. *)
Theorem snapshot_collection (s : State) (name : string) (items : list value) :
  NoDup (dir s) → serialized s name →
  getattr s name = Some (VCallbackList items) →
  ∃ d d', convert_state_to_json (Some s) = Some (Ret (VDict d)) ∧
          dict_get d (KStr name) = Some (VDict d') ∧
          d'.*1 = (λ i : nat, KStr (pretty (Z.of_nat i)))
                    <$> seq 0 (length items) ∧
          ∀ (i : nat) item, items !! i = Some item →
            ∃ r, dict_get d' (KStr (pretty (Z.of_nat i))) = Some r ∧
                 json_of item r.
Proof.
  intros Hnd [Hu Hcb] Hval.
  destruct (snapshot_exists s Hnd) as (snap & Hconv & Hsnap).
  unfold getattr, is_callback_property in *.
  destruct (lookup_attr name s) as [a|] eqn:Ha; [|done].
  simpl in Hval. injection Hval as Hval.
  pose proof (state_to_dict_get _ _ _ Ha Hu Hcb) as Hget.
  rewrite Hval in Hget. simpl in Hget.
  destruct (snapshot_record_get _ _ _ _ Hsnap Hget) as (r & Hr & Hjson).
  apply json_of_dict_inv in Hjson as (members & Hmembers & ->).
  assert (Hnames : members.*1
            = (λ i : nat, pretty (Z.of_nat i)) <$> seq 0 (length items)).
  { apply list_eq. intros i. rewrite !list_lookup_fmap.
    destruct (members !! i) as [m|] eqn:Hm; simpl.
    - destruct (Forall2_lookup_r _ _ _ _ _ Hmembers Hm)
        as ([k x] & Hkx & Hk & _).
      unfold dict_of_enumerate, enumerate in Hkx.
      rewrite dict_of_enumerate_from_index, list_lookup_fmap in Hkx.
      destruct (items !! i) as [item|] eqn:Hitem; [|done].
      simpl in Hkx. injection Hkx as <- <-. simpl in Hk.
      rewrite lookup_seq_lt by by eapply lookup_lt_Some. simpl.
      by rewrite Hk.
    - rewrite lookup_seq_ge; [done|].
      apply Forall2_length in Hmembers.
      unfold dict_of_enumerate, enumerate in Hmembers.
      rewrite length_map in Hmembers.
      assert (Hlen : ∀ (l : list value) start,
                length (enumerate_from start l) = length l).
      { induction l; intros; simpl; [done|]. by f_equal. }
      rewrite Hlen, length_map in Hmembers.
      apply lookup_ge_None_1 in Hm. lia. }
  assert (Hnd' : NoDup members.*1).
  { rewrite Hnames. apply position_names_NoDup. }
  exists (dict_of_record snap), (dict_of_record members).
  rewrite dict_get_dict_of_record, Hr, json_object_NoDup by done.
  split_and!; [done|done| |].
  - unfold dict_of_record. rewrite <-list_fmap_compose.
    change (fst ∘ (λ kv : string * value, (KStr kv.1, kv.2)))
      with (KStr ∘ (fst : string * value → string)).
    by rewrite list_fmap_compose, Hnames, <-list_fmap_compose.
  - intros i item Hitem.
    assert (Hkx : dict_of_enumerate (map serialize_item items) !! i
                  = Some (KInt (Z.of_nat i), serialize_item item)).
    { unfold dict_of_enumerate, enumerate.
      rewrite dict_of_enumerate_from_index, list_lookup_fmap, Hitem.
      done. }
    destruct (Forall2_lookup_l _ _ _ _ _ Hmembers Hkx)
      as ([n r] & Hm & Hn & Hjson).
    simpl in *. exists r. rewrite dict_get_dict_of_record. split.
    + subst n. by eapply record_get_lookup.
    + by apply json_of_serialize_item.
Qed.

(** ** The snapshot patched back *)

Lemma serialized_record_get (s : State) name val :
  serialized s name → getattr s name = Some val →
  record_get (state_to_dict s) name
  = Some (serialize_property serialize_item val).
Proof.
  intros [Hu Hcb]. unfold getattr, is_callback_property in *.
  destruct (lookup_attr name s) as [a|] eqn:Ha; [|done].
  intros [= <-]. by apply state_to_dict_get.
Qed.

Lemma state_ext (s s' : State) :
  class_of s' = class_of s → NoDup (dir s) →
  (∀ name, getattr s' name = getattr s name) → s' = s.
Proof.
  revert s'. induction s as [|a s IH]; intros [|a' s'] Hclass; try done.
  simpl in Hclass. injection Hclass as Hn Hcb Hp Hclass.
  unfold dir. simpl. rewrite NoDup_cons. fold (dir s).
  intros [Ha Hnd] Hget.
  assert (Hv : a_value a' = a_value a).
  { specialize (Hget (a_name a)). unfold getattr in Hget. simpl in Hget.
    rewrite Hn, String.eqb_refl in Hget. simpl in Hget. congruence. }
  f_equal.
  - destruct a, a'. simpl in *. congruence.
  - apply IH; [done|done|]. intros name. specialize (Hget name).
    unfold getattr in *. simpl in Hget. rewrite Hn in Hget.
    destruct (String.eqb_spec (a_name a) name) as [Heq|]; [|done].
    assert (Hnone : lookup_attr name s = None).
    { apply lookup_attr_None. by rewrite <-Heq. }
    assert (Hnone' : lookup_attr name s' = None).
    { apply lookup_attr_None. by rewrite (class_of_dir _ _ Hclass), <-Heq. }
    by rewrite Hnone, Hnone'.
Qed.

Lemma echo_run `{!StateHost} (s : State) (snap : record) :
  NoDup (dir s) →
  Forall2 (λ kv m, m.1 = kv.1 ∧ json_of kv.2 m.2) (state_to_dict s) snap →
  ∃ w, run_update s snap = (Ret tt, w) ∧
       class_of (live w) = class_of s ∧
       (∀ name val rv, serialized s name → getattr s name = Some val →
          record_get snap name = Some rv →
          getattr (live w) name = Some (echo_value val rv)) ∧
       (∀ name, ¬ serialized s name → getattr (live w) name = getattr s name).
Proof.
  intros Hnd Hsnap.
  pose proof (snapshot_keys _ _ Hsnap) as Hkeys.
  assert (Hser : ∀ name, name ∈ patch_order s snap ↔ serialized s name).
  { intros name.
    rewrite patch_order_elem_of, Hkeys, state_to_dict_keys_NoDup by done.
    rewrite list_elem_of_filter. unfold serialized. split; [tauto|].
    intros [? Hcb]. split_and!; try done.
    by apply is_callback_property_dir. }
  assert (Hrow : ∀ name, serialized s name →
            ∃ val rv, getattr s name = Some val ∧
                      record_get snap name = Some rv ∧
                      json_of (serialize_property serialize_item val) rv).
  { intros name [Hu Hcb]. unfold getattr, is_callback_property in *.
    destruct (lookup_attr name s) as [a|] eqn:Ha; [|done].
    pose proof (state_to_dict_get _ _ _ Ha Hu Hcb) as Hget.
    destruct (snapshot_record_get _ _ _ _ Hsnap Hget) as (rv & ? & ?).
    by exists (a_value a), rv. }
  pose (target := λ name,
    match getattr s name, record_get snap name with
    | Some val, Some rv => echo_value val rv
    | _, _ => VNone
    end).
  pose (ready := λ name cur, getattr s name = Some cur).
  destruct (for_patch_each snap ready target (patch_order s snap)
              (World s [])) as (w & Hrun & Hin & Hout).
  - apply patch_order_NoDup. rewrite Hkeys. by apply state_to_dict_NoDup.
  - intros n w' cur Hn%Hser Hcur Hready.
    destruct (Hrow n Hn) as (val & rv & Hval & Hrv & Hjson).
    unfold ready in Hready. rewrite Hval in Hready. injection Hready as ->.
    unfold target. rewrite Hval, Hrv. unfold echo_value.
    destruct (is_CallbackList cur) eqn:Hkind.
    + destruct cur; try done. simpl in Hjson.
      assert (Hkeyed : ∃ d, rv = VDict d ∧ string_keyed d = true).
      { pose proof Hjson as (members & _ & ->)%json_of_dict_inv.
        eexists. split; [done|]. destruct Hjson as [fuel Hjson].
        by apply string_keyed_wf, json_native_dict,
                 (json_loads_dumps_native fuel _ _ Hjson). }
      destruct Hkeyed as (d & -> & Hd).
      assert (Hskip : patch_property snap n w' = (Ret tt, w')).
      { unfold patch_property, py_getattr. rewrite bind_run, Hcur. simpl.
        apply for_skip. intros i _.
        by apply (patch_item_string_keyed _ _ d). }
      by rewrite Hskip.
    + assert (Hraw : serialize_property serialize_item cur = cur)
        by by destruct cur.
      rewrite Hraw in Hjson.
      rewrite (patch_property_scalar _ _ _ _ _ Hcur Hkind Hrv).
      destruct (py_ne_str rv MAGIC_IGNORE); [|done].
      simpl. by rewrite getattr_store_eq.
  - intros n Hn%Hser. destruct (Hrow n Hn) as (val & _ & Hval & _).
    by exists val.
  - exists w. rewrite run_update_order. split_and!; [done| | |].
    + pose proof (for_patch_touches snap (patch_order s snap) (World s []))
        as [Hclass _ _].
      by rewrite Hrun in Hclass.
    + intros name val rv Hname Hval Hrv.
      rewrite Hin by by apply Hser. unfold target. by rewrite Hval, Hrv.
    + intros name Hname. rewrite Hout; [done|]. by rewrite Hser.
Qed.

(** X14. Patching a state with its own snapshot never raises. After it the
    state has the same names; a serialized property holds [echo_value] of
    its old value and of its JSON form: the old value for a [CallbackList]
    and when the JSON form is the marker, the JSON form otherwise. The
    other properties are as they were. *)
Theorem echo_snapshot `{!StateHost} (s : State) :
  NoDup (dir s) →
  ∃ (snap : record) (after : State),
    convert_state_to_json (Some s) = Some (Ret (VDict (dict_of_record snap)))
    ∧ record_of_dict (dict_of_record snap) = Some snap
    ∧ update_state_from_json (Some s) snap = (Ret (Some after), Some after)
    ∧ dir after = dir s
    ∧ (∀ name val rv, serialized s name → getattr s name = Some val →
         record_get snap name = Some rv →
         getattr after name = Some (echo_value val rv))
    ∧ (∀ name, ¬ serialized s name → getattr after name = getattr s name).
Proof.
  intros Hnd. destruct (snapshot_exists s Hnd) as (snap & Hconv & Hsnap).
  destruct (echo_run s snap Hnd Hsnap) as (w & Hrun & Hclass & Hin & Hout).
  exists snap, (live w). split_and!; try done.
  - apply record_of_dict_of_record.
  - unfold update_state_from_json. by rewrite Hrun.
  - by apply class_of_dir.
Qed.

(** X15. When every serialized property of a state holds a value that JSON
    has natively, a reference or a [CallbackList], the state is the same
    after its own snapshot has been patched back onto it. *)
Theorem echo_safe_identity `{!StateHost} (s : State) :
  NoDup (dir s) → echo_safe s →
  ∃ snap : record,
    convert_state_to_json (Some s) = Some (Ret (VDict (dict_of_record snap)))
    ∧ update_state_from_json (Some s) snap = (Ret (Some s), Some s).
Proof.
  intros Hnd Hsafe. destruct (snapshot_exists s Hnd) as (snap & Hconv & Hsnap).
  destruct (echo_run s snap Hnd Hsnap) as (w & Hrun & Hclass & Hin & Hout).
  exists snap. split; [done|].
  assert (Hsame : live w = s).
  { apply state_ext; [done|done|]. intros name.
    destruct (decide (serialized s name)) as [Hs|Hs]; [|by apply Hout].
    pose proof Hs as [Hu Hcb]. unfold is_callback_property in Hcb.
    destruct (lookup_attr name s) as [a|] eqn:Ha; [|done].
    assert (Hval : getattr s name = Some (a_value a)).
    { unfold getattr. by rewrite Ha. }
    pose proof (state_to_dict_get _ _ _ Ha Hu Hcb) as Hget.
    destruct (snapshot_record_get _ _ _ _ Hsnap Hget) as (rv & Hrv & Hjson).
    rewrite (Hin name (a_value a) rv Hs Hval Hrv), Hval. f_equal.
    unfold echo_value.
    destruct (Hsafe name (a_value a) Hs Hval) as [Hnat|[[id Hid]|Hkind]].
    - assert (Hraw : serialize_property serialize_item (a_value a)
                     = a_value a) by by destruct (a_value a).
      rewrite Hraw in Hjson.
      assert (rv = a_value a) as ->
        by (eapply json_of_det; [done|by apply json_of_native]).
      destruct (is_CallbackList (a_value a)); [done|].
      by destruct (py_ne_str (a_value a) MAGIC_IGNORE).
    - rewrite Hid in *. simpl in Hjson.
      by rewrite (json_of_reference _ _ Hjson).
    - by rewrite Hkind. }
  unfold update_state_from_json. rewrite Hrun. simpl. by rewrite Hsame.
Qed.

(** X16. A colormap and a state held directly by a serialized property do
    not come back from the snapshot as they were: after the snapshot has
    been patched back, the property holds the name of the colormap, a
    string, and in place of the state the dict that is its snapshot. *)
Theorem echo_replaces_objects `{!StateHost} (s : State) (name : string)
    (val : value) :
  NoDup (dir s) → serialized s name → getattr s name = Some val →
  ∃ (snap : record) (after : State),
    convert_state_to_json (Some s) = Some (Ret (VDict (dict_of_record snap)))
    ∧ update_state_from_json (Some s) snap = (Ret (Some after), Some after)
    ∧ (∀ cmap, val = VColormap cmap → cmap ≠ MAGIC_IGNORE →
               getattr after name = Some (VStr cmap))
    ∧ (∀ s', val = VState s' →
             ∃ d, convert_state_to_json (Some s') = Some (Ret (VDict d)) ∧
                  getattr after name = Some (VDict d)).
Proof.
  intros Hnd Hs Hval. destruct (snapshot_exists s Hnd) as (snap & Hconv & Hsnap).
  destruct (echo_run s snap Hnd Hsnap) as (w & Hrun & Hclass & Hin & Hout).
  exists snap, (live w). split_and!; [done| | |].
  - unfold update_state_from_json. by rewrite Hrun.
  - intros cmap -> Hne.
    pose proof (serialized_record_get s name _ Hs Hval) as Hget.
    destruct (snapshot_record_get _ _ _ _ Hsnap Hget) as (rv & Hrv & Hjson).
    apply json_of_colormap in Hjson as ->.
    rewrite (Hin name (VColormap cmap) (VStr cmap) Hs Hval Hrv).
    unfold echo_value. simpl.
    by destruct (String.eqb_spec cmap MAGIC_IGNORE).
  - intros s' ->.
    pose proof (serialized_record_get s name _ Hs Hval) as Hget.
    destruct (snapshot_record_get _ _ _ _ Hsnap Hget) as (rv & Hrv & Hjson).
    simpl in Hjson. apply json_of_state in Hjson.
    pose proof Hjson as (members & _ & ->)%json_of_dict_inv.
    exists (json_object members). split.
    + by apply convert_state_to_json_of.
    + by rewrite (Hin name (VState s') _ Hs Hval Hrv).
Qed.

(** X17. An assignment that [validate] rejects changes nothing: for a value
    that is neither [None] nor a state, [GlueState.set] raises TraitError
    and the object is as before, with the value it held and the callbacks
    it had registered. *)
Theorem set_rejects_unchanged (obj : widget) (v : value) :
  v ≠ VNone → is_State v = false →
  GlueState_set obj v
  = (Raise (TraitError "value should be a glue State instance"), obj).
Proof. intros Hne Hstate. by destruct v. Qed.

(** ** State and serializer *)

(** X18. [state_to_dict] stores a serialized property that does not hold a
    [CallbackList] as the very value it holds; a state or a reference held
    directly by a property is not serialized by it. *)
Theorem state_to_dict_scalar (s : State) (name : string) (val : value) :
  serialized s name → getattr s name = Some val →
  is_CallbackList val = false →
  record_get (state_to_dict s) name = Some val.
Proof.
  intros Hs Hval Hkind. rewrite (serialized_record_get s name val Hs Hval).
  by destruct val.
Qed.

(** ** The further properties on the examples *)

Example json_loads_dumps_viewer :
  convert_state_to_json (Some Sample.viewer) =
  Some (Ret (VDict
    [(KStr "layers",
      VDict [(KStr "0", VDict [(KStr "color", VStr "red")]);
             (KStr "1", VDict [(KStr "color", VStr "green")]);
             (KStr "2", VDict [(KStr "color", VStr "blue")])]);
     (KStr "title", VStr "plot");
     (KStr "x_att", VStr MAGIC_IGNORE);
     (KStr "x_min", VInt 0)])).
Proof. vm_compute. reflexivity. Qed.

Example run_update_mixed :
  run_update (H:=Sample.host) Sample.viewer Wire.mixed_patch =
  (Raise TypeError,
   World (store_attr "title" (VStr "new")
            (store_attr "x_att" (VRef 2) Sample.viewer))
         [ESetattr "x_att" (VRef 2); ESetattr "title" (VStr "new")]).
Proof. reflexivity. Qed.

Lemma sample_scalar_patch : scalar_patch Sample.viewer Sample.limits_patch.
Proof.
  intros name Hname _. simpl in Hname.
  apply elem_of_cons in Hname as [->|Hname]; [by eexists|].
  apply list_elem_of_singleton in Hname as ->. by eexists.
Qed.

Lemma sample_values_not_lists name v :
  record_get Sample.limits_patch name = Some v → is_CallbackList v = false.
Proof.
  unfold Sample.limits_patch. cbn [record_get].
  destruct (String.eqb "x_min" name); [by intros [= <-]|].
  destruct (String.eqb "x_att" name); [by intros [= <-]|done].
Qed.

Lemma sample_echo_safe : echo_safe Sample.viewer.
Proof.
  intros name val [Hu Hcb] Hval.
  pose proof (is_callback_property_dir _ _ Hcb) as Hin. simpl in Hin.
  repeat (apply elem_of_cons in Hin as [->|Hin]);
    try (by apply elem_of_nil in Hin); try done;
    injection Hval as <-; by eauto.
Qed.

Lemma patch_scalar_applied_witness :
  NoDup Sample.limits_patch.*1 ∧
  is_callback_property Sample.viewer "x_min" = true ∧
  getattr Sample.viewer "x_min" = Some (VInt 0) ∧
  record_get Sample.limits_patch "x_min" = Some (VInt 5) ∧
  getattr (live (run_update (H:=Sample.host) Sample.viewer
                   Sample.limits_patch).2) "x_min" = Some (VInt 5).
Proof.
  assert (Hnd : NoDup Sample.limits_patch.*1) by compute_done.
  assert (Hne : VInt 5 ≠ VStr MAGIC_IGNORE) by discriminate.
  split_and!; [exact Hnd|reflexivity|reflexivity|reflexivity|].
  exact (patch_scalar_applied (H:=Sample.host) Sample.viewer
           Sample.limits_patch "x_min" (VInt 0) (VInt 5) _
           Hnd eq_refl eq_refl eq_refl eq_refl Hne eq_refl).
Defined.

Lemma scalar_patch_returns_witness :
  NoDup Sample.limits_patch.*1 ∧
  scalar_patch Sample.viewer Sample.limits_patch ∧
  run_update (H:=Sample.host) Sample.viewer Sample.limits_patch
  = (Ret tt,
     World (foldl (scalar_store Sample.limits_patch) Sample.viewer
              (patch_order Sample.viewer Sample.limits_patch))
           (omap (scalar_event Sample.limits_patch)
              (patch_order Sample.viewer Sample.limits_patch))).
Proof.
  assert (Hnd : NoDup Sample.limits_patch.*1) by compute_done.
  split_and!; [exact Hnd|exact sample_scalar_patch|].
  exact (scalar_patch_returns (H:=Sample.host) Sample.viewer
           Sample.limits_patch Hnd sample_scalar_patch).
Defined.

Lemma collection_length_kept_witness :
  getattr Sample.viewer "layers" = Some (VCallbackList Sample.layers) ∧
  ∃ items',
    getattr (live (run_update (H:=Sample.host) Sample.viewer
                     [("layers", VDict Sample.layers_patch)]).2) "layers"
    = Some (VCallbackList items') ∧
    length items' = length Sample.layers.
Proof.
  split; [reflexivity|].
  exact (collection_length_kept (H:=Sample.host) Sample.viewer
           [("layers", VDict Sample.layers_patch)] "layers" Sample.layers
           eq_refl).
Defined.

Lemma collection_patch_scalar_raises_witness :
  is_callback_property Sample.subsets "subsets" = true ∧
  getattr Sample.subsets "subsets" = Some (VCallbackList [VRef 7; VInt 3]) ∧
  json_scalar (VStr MAGIC_IGNORE) = true ∧
  (∃ e, (run_update (H:=Sample.host) Sample.subsets
           [("subsets", VStr MAGIC_IGNORE)]).1 = Raise e) ∧
  run_update (H:=Sample.host) Sample.subsets [("subsets", VStr MAGIC_IGNORE)]
  = (Raise TypeError, World Sample.subsets []).
Proof.
  assert (Hne : [VRef 7; VInt 3] ≠ []) by discriminate.
  split_and!; [reflexivity|reflexivity|reflexivity|..].
  - exact (proj1 (collection_patch_scalar_raises (H:=Sample.host)
                    Sample.subsets [("subsets", VStr MAGIC_IGNORE)]
                    "subsets" [VRef 7; VInt 3] (VStr MAGIC_IGNORE)
                    eq_refl eq_refl Hne eq_refl eq_refl)).
  - exact (proj2 (collection_patch_scalar_raises (H:=Sample.host)
                    Sample.subsets [("subsets", VStr MAGIC_IGNORE)]
                    "subsets" [VRef 7; VInt 3] (VStr MAGIC_IGNORE)
                    eq_refl eq_refl Hne eq_refl eq_refl)).
Defined.

Lemma string_keys_patch_nothing_witness :
  getattr Sample.subsets "subsets" = Some (VCallbackList [VRef 7; VInt 3]) ∧
  string_keyed [(KStr "0", VInt 1)] = true ∧
  getattr (live (run_update (H:=Sample.host) Sample.subsets
                   [("subsets", VDict [(KStr "0", VInt 1)])]).2) "subsets"
  = Some (VCallbackList [VRef 7; VInt 3]).
Proof.
  split_and!; [reflexivity|reflexivity|].
  exact (proj1 (string_keys_patch_nothing (H:=Sample.host) Sample.subsets
                  [("subsets", VDict [(KStr "0", VInt 1)])] "subsets"
                  [VRef 7; VInt 3] [(KStr "0", VInt 1)]
                  eq_refl eq_refl eq_refl)).
Defined.

Lemma sample_others_not_lists m :
  m ∈ Wire.mixed_patch.*1 → m ≠ "layers" →
  is_callback_property Sample.viewer m = true →
  ∃ cur, getattr Sample.viewer m = Some cur ∧ is_CallbackList cur = false.
Proof.
  intros Hm Hne _. simpl in Hm.
  repeat (apply elem_of_cons in Hm as [->|Hm]); try done;
    try (by eexists); by apply elem_of_nil in Hm.
Qed.

Lemma failure_is_partial_witness :
  NoDup Wire.mixed_patch.*1 ∧
  is_callback_property Sample.viewer "layers" = true ∧
  getattr Sample.viewer "layers" = Some (VCallbackList Sample.layers) ∧
  record_get Wire.mixed_patch "layers" = Some (VStr MAGIC_IGNORE) ∧
  ∃ w, run_update (H:=Sample.host) Sample.viewer Wire.mixed_patch
       = (Raise TypeError, w) ∧
       getattr (live w) "layers" = Some (VCallbackList Sample.layers) ∧
       (∀ m, _update_priority Sample.viewer m
             < _update_priority Sample.viewer "layers" →
             getattr (live w) m = getattr Sample.viewer m) ∧
       (∀ m mv,
          is_callback_property Sample.viewer m = true →
          _update_priority Sample.viewer "layers"
          < _update_priority Sample.viewer m →
          record_get Wire.mixed_patch m = Some mv →
          mv ≠ VStr MAGIC_IGNORE →
          getattr (live w) m = Some mv).
Proof.
  assert (Hnd : NoDup Wire.mixed_patch.*1) by compute_done.
  assert (Hne : Sample.layers ≠ []) by discriminate.
  split_and!; [exact Hnd|reflexivity|reflexivity|reflexivity|].
  exact (failure_is_partial (H:=Sample.host) Sample.viewer Wire.mixed_patch
           "layers" Sample.layers (VStr MAGIC_IGNORE)
           Hnd eq_refl eq_refl Hne eq_refl eq_refl sample_others_not_lists).
Defined.

Lemma patch_then_serialize_witness :
  NoDup Sample.limits_patch.*1 ∧
  startswith_underscore "x_min" = false ∧
  record_get Sample.limits_patch "x_min" = Some (VInt 5) ∧
  record_get (state_to_dict
                (live (run_update (H:=Sample.host) Sample.viewer
                         Sample.limits_patch).2)) "x_min" = Some (VInt 5).
Proof.
  assert (Hnd : NoDup Sample.limits_patch.*1) by compute_done.
  assert (Hne : VInt 5 ≠ VStr MAGIC_IGNORE) by discriminate.
  split_and!; [exact Hnd|reflexivity|reflexivity|].
  exact (patch_then_serialize (H:=Sample.host) Sample.viewer
           Sample.limits_patch "x_min" (VInt 0) (VInt 5) _
           Hnd eq_refl eq_refl eq_refl eq_refl eq_refl Hne eq_refl eq_refl).
Defined.

Lemma scalar_patch_idempotent_witness :
  NoDup Sample.limits_patch.*1 ∧
  scalar_patch Sample.viewer Sample.limits_patch ∧
  run_update (H:=Sample.host)
    (live (run_update (H:=Sample.host) Sample.viewer Sample.limits_patch).2)
    Sample.limits_patch
  = (Ret tt,
     World (live (run_update (H:=Sample.host) Sample.viewer
                    Sample.limits_patch).2)
           (log (run_update (H:=Sample.host) Sample.viewer
                   Sample.limits_patch).2)).
Proof.
  assert (Hnd : NoDup Sample.limits_patch.*1) by compute_done.
  split_and!; [exact Hnd|exact sample_scalar_patch|].
  exact (scalar_patch_idempotent (H:=Sample.host) Sample.viewer
           Sample.limits_patch Hnd sample_scalar_patch
           sample_values_not_lists).
Defined.

Lemma reference_echo_ignored_witness :
  encoder_default (VRef 1) = Ret (VStr MAGIC_IGNORE) ∧
  getattr Sample.viewer "x_att" = Some (VRef 1) ∧
  getattr (live (run_update (H:=Sample.host) Sample.viewer
                   [("x_att", VStr MAGIC_IGNORE); ("x_min", VInt 5)]).2)
          "x_att" = Some (VRef 1).
Proof.
  split_and!; [reflexivity|reflexivity|].
  exact (proj1 (reference_echo_ignored (H:=Sample.host) Sample.viewer
                  [("x_att", VStr MAGIC_IGNORE); ("x_min", VInt 5)] "x_att"
                  (VRef 1) (VStr MAGIC_IGNORE) 1
                  eq_refl eq_refl eq_refl eq_refl)).
Defined.

Lemma json_pass_idempotent_witness :
  json_of (VColormap "viridis") (VStr "viridis") ∧
  json_of (VStr "viridis") (VStr "viridis").
Proof.
  assert (Hjson : json_of (VColormap "viridis") (VStr "viridis")).
  { exists 2%nat. reflexivity. }
  split; [exact Hjson|].
  exact (json_pass_idempotent (VColormap "viridis") (VStr "viridis") Hjson).
Defined.

Lemma snapshot_property_witness :
  NoDup (dir Sample.viewer) ∧
  serialized Sample.viewer "x_att" ∧
  getattr Sample.viewer "x_att" = Some (VRef 1) ∧
  ∃ d r, convert_state_to_json (Some Sample.viewer) = Some (Ret (VDict d)) ∧
         dict_get d (KStr "x_att") = Some r ∧ json_of (VRef 1) r ∧
         (∀ id, VRef 1 = VRef id → r = VStr MAGIC_IGNORE) ∧
         (∀ cmap, VRef 1 = VColormap cmap → r = VStr cmap) ∧
         (json_native (VRef 1) = true → r = VRef 1) ∧
         (∀ s', VRef 1 = VState s' →
                convert_state_to_json (Some s') = Some (Ret r)).
Proof.
  assert (Hnd : NoDup (dir Sample.viewer)) by compute_done.
  assert (Hs : serialized Sample.viewer "x_att") by (split; reflexivity).
  split_and!; [exact Hnd|exact Hs|reflexivity|].
  exact (snapshot_property Sample.viewer "x_att" (VRef 1)
           Hnd Hs eq_refl eq_refl).
Defined.

Lemma snapshot_collection_witness :
  NoDup (dir Sample.viewer) ∧
  serialized Sample.viewer "layers" ∧
  ∃ d d', convert_state_to_json (Some Sample.viewer)
          = Some (Ret (VDict d)) ∧
          dict_get d (KStr "layers") = Some (VDict d') ∧
          d'.*1 = (λ i : nat, KStr (pretty (Z.of_nat i)))
                    <$> seq 0 (length Sample.layers) ∧
          ∀ (i : nat) item, Sample.layers !! i = Some item →
            ∃ r, dict_get d' (KStr (pretty (Z.of_nat i))) = Some r ∧
                 json_of item r.
Proof.
  assert (Hnd : NoDup (dir Sample.viewer)) by compute_done.
  assert (Hs : serialized Sample.viewer "layers") by (split; reflexivity).
  split_and!; [exact Hnd|exact Hs|].
  exact (snapshot_collection Sample.viewer "layers" Sample.layers
           Hnd Hs eq_refl).
Defined.

Lemma echo_snapshot_witness :
  NoDup (dir Wire.styled) ∧
  ∃ (snap : record) (after : State),
    convert_state_to_json (Some Wire.styled)
    = Some (Ret (VDict (dict_of_record snap)))
    ∧ record_of_dict (dict_of_record snap) = Some snap
    ∧ update_state_from_json (H:=Sample.host) (Some Wire.styled) snap
      = (Ret (Some after), Some after)
    ∧ dir after = dir Wire.styled
    ∧ (∀ name val rv, serialized Wire.styled name →
         getattr Wire.styled name = Some val →
         record_get snap name = Some rv →
         getattr after name = Some (echo_value val rv))
    ∧ (∀ name, ¬ serialized Wire.styled name →
               getattr after name = getattr Wire.styled name).
Proof.
  assert (Hnd : NoDup (dir Wire.styled)) by compute_done.
  split; [exact Hnd|].
  exact (echo_snapshot (H:=Sample.host) Wire.styled Hnd).
Defined.

Lemma echo_safe_identity_witness :
  NoDup (dir Sample.viewer) ∧ echo_safe Sample.viewer ∧
  ∃ snap : record,
    convert_state_to_json (Some Sample.viewer)
    = Some (Ret (VDict (dict_of_record snap)))
    ∧ update_state_from_json (H:=Sample.host) (Some Sample.viewer) snap
      = (Ret (Some Sample.viewer), Some Sample.viewer).
Proof.
  assert (Hnd : NoDup (dir Sample.viewer)) by compute_done.
  split_and!; [exact Hnd|exact sample_echo_safe|].
  exact (echo_safe_identity (H:=Sample.host) Sample.viewer
           Hnd sample_echo_safe).
Defined.

Lemma echo_replaces_objects_witness :
  NoDup (dir Wire.styled) ∧ serialized Wire.styled "cmap" ∧
  getattr Wire.styled "cmap" = Some (VColormap "viridis") ∧
  ∃ (snap : record) (after : State),
    convert_state_to_json (Some Wire.styled)
    = Some (Ret (VDict (dict_of_record snap)))
    ∧ update_state_from_json (H:=Sample.host) (Some Wire.styled) snap
      = (Ret (Some after), Some after)
    ∧ (∀ cmap, VColormap "viridis" = VColormap cmap → cmap ≠ MAGIC_IGNORE →
               getattr after "cmap" = Some (VStr cmap))
    ∧ (∀ s', VColormap "viridis" = VState s' →
             ∃ d, convert_state_to_json (Some s') = Some (Ret (VDict d)) ∧
                  getattr after "cmap" = Some (VDict d)).
Proof.
  assert (Hnd : NoDup (dir Wire.styled)) by compute_done.
  assert (Hs : serialized Wire.styled "cmap") by (split; reflexivity).
  split_and!; [exact Hnd|exact Hs|reflexivity|].
  exact (echo_replaces_objects (H:=Sample.host) Wire.styled "cmap"
           (VColormap "viridis") Hnd Hs eq_refl).
Defined.

Lemma set_rejects_unchanged_witness :
  VInt 5 ≠ VNone ∧ is_State (VInt 5) = false ∧
  GlueState_set (Widget VNone []) (VInt 5)
  = (Raise (TraitError "value should be a glue State instance"),
     Widget VNone []).
Proof.
  assert (Hne : VInt 5 ≠ VNone) by discriminate.
  split_and!; [exact Hne|reflexivity|].
  exact (set_rejects_unchanged (Widget VNone []) (VInt 5) Hne eq_refl).
Defined.

Lemma state_to_dict_scalar_witness :
  serialized Sample.viewer "x_att" ∧
  getattr Sample.viewer "x_att" = Some (VRef 1) ∧
  record_get (state_to_dict Sample.viewer) "x_att" = Some (VRef 1).
Proof.
  assert (Hs : serialized Sample.viewer "x_att") by (split; reflexivity).
  split_and!; [exact Hs|reflexivity|].
  exact (state_to_dict_scalar Sample.viewer "x_att" (VRef 1)
           Hs eq_refl eq_refl).
Defined.
